(** * Host-side serial framing for the amplified mouse (Pi Pico)

    A shallow embedding of the three host scripts

    - [scripts/host_send_mice.py]   (module [HostSendMice]),
    - [scripts/send_settings.py]    (module [SendSettings]),
    - [scripts/test_random_mice.py] (module [TestRandomMice]),

    together with the properties of the telemetry frame, of the control
    frame and of the two emission loops.

    Python integers are unbounded, so they are [Z]; [&], [|], [~], [<<] and
    [>>] are [Z.land], [Z.lor], [Z.lnot], [Z.shiftl] and [Z.shiftr], which
    agree with Python on negative numbers (two's complement, infinitely
    sign-extended).  A Python [float] is an IEEE 754 binary64 number, a
    [spec_float] with precision 53 and maximal exponent 1024.  A
    [bytearray] is a [list Z] whose stores are checked: storing a value
    outside [range(0, 256)] raises [ValueError].  Exceptions are the
    [Raise] branch of the [res] monad. *)

From Stdlib Require Import ZArith List Bool Lia String Ascii.
From Stdlib Require Import Floats.SpecFloat.
From stdpp Require Import base list gmap strings.

Local Open Scope Z_scope.

(** ** Python exceptions and the result monad *)

Inductive exn : Type :=
  | ValueError
  | IndexError
  | OverflowError
  | KeyError
  | ZeroDivisionError
  | OSError
  | SystemExit (code : Z).

Inductive res (A : Type) : Type :=
  | Ok (a : A)
  | Raise (e : exn).

Arguments Ok {A} a.
Arguments Raise {A} e.

#[global] Instance res_ret : MRet res := λ A a, Ok a.
#[global] Instance res_bind : MBind res := λ A B f m,
  match m with
  | Ok a => f a
  | Raise e => Raise e
  end.

(** [for i in xs: s = body(i, s)], stopping at the first exception. *)
Fixpoint for_each {I S : Type} (body : I → S → res S) (xs : list I) (s : S)
  : res S :=
  match xs with
  | [] => Ok s
  | i :: xs' => s' ← body i s; for_each body xs' s'
  end.

(** [range(n)] *)
Definition range (n : nat) : list nat := seq 0 n.

(** [l[i]] for [0 <= i]: [IndexError] out of range. *)
Definition getitem {A : Type} (l : list A) (i : nat) : res A :=
  match l !! i with
  | Some x => Ok x
  | None => Raise IndexError
  end.

(** [l[i] = x] on a list. *)
Definition setitem {A : Type} (l : list A) (i : nat) (x : A) : res (list A) :=
  if (i <? length l)%nat then Ok (<[i:=x]> l) else Raise IndexError.

(** [bytearray(n)]: [n] zero bytes. *)
Definition bytearray (n : nat) : list Z := replicate n 0.

Definition is_byte (v : Z) : bool := (0 <=? v) && (v <? 256).

(** [buf[i] = v] on a bytearray: the value must be in [range(0, 256)]. *)
Definition setbyte (buf : list Z) (i : nat) (v : Z) : res (list Z) :=
  if (i <? length buf)%nat then
    if is_byte v then Ok (<[i:=v]> buf) else Raise ValueError
  else Raise IndexError.

(** The saturation written out three times in the scripts:
    [if x > 127: x = 127 elif x < -128: x = -128]. *)
Definition saturate (x : Z) : Z :=
  if x >? 127 then 127 else if x <? -128 then -128 else x.

(** ** [scripts/host_send_mice.py] *)

Module HostSendMice.

Definition SYNC : Z := 0xAA.
Definition PACKET_LEN : nat := 15.
Definition NUM_MICE_MAX : nat := 6.

(** One row [[dx, dy, btns, wheel]] of [state]. *)
Record slot : Type := Slot { dx : Z; dy : Z; btns : Z; wheel : Z }.

(** [state = [[0, 0, 0, 0] for _ in range(NUM_MICE_MAX)]] *)
Definition initial_state : list slot := replicate NUM_MICE_MAX (Slot 0 0 0 0).

(** [make_packet()], with the enclosing [state] as its argument. *)
Definition make_packet (state : list slot) : res (list Z) :=
  let buf := bytearray PACKET_LEN in
  buf ← setbyte buf 0 SYNC;
  buf ← for_each (λ i buf,
           s ← getitem state i;
           buf ← setbyte buf (1 + i * 2) (Z.land (dx s) 0xFF);
           setbyte buf (2 + i * 2) (Z.land (dy s) 0xFF))
         (range NUM_MICE_MAX) buf;
  buf ← setbyte buf 13 0;
  buf ← for_each (λ i buf,
           s ← getitem state i;
           b ← getitem buf 13;
           setbyte buf 13 (Z.lor b (Z.land (btns s) 0x07)))
         (range NUM_MICE_MAX) buf;
  buf ← setbyte buf 14 0;
  buf ← for_each (λ i buf,
           s ← getitem state i;
           let w := saturate (wheel s) in
           b ← getitem buf 14;
           setbyte buf 14 (Z.land (b + w) 0xFF))
         (range NUM_MICE_MAX) buf;
  b ← getitem buf 14;
  buf ← (if b >=? 128 then setbyte buf 14 (b - 256) else Ok buf);
  Ok buf.

(** An [evdev] input event: [event.type], [event.code], [event.value]. *)
Record input_event : Type :=
  InputEvent { ev_type : Z; ev_code : Z; ev_value : Z }.

(** The [evdev.ecodes] constants the script names (Linux input event
    codes). *)
Definition EV_KEY : Z := 0x01.
Definition EV_REL : Z := 0x02.
Definition REL_X : Z := 0x00.
Definition REL_Y : Z := 0x01.
Definition REL_WHEEL : Z := 0x08.
Definition BTN_LEFT : Z := 0x110.
Definition BTN_RIGHT : Z := 0x111.
Definition BTN_MIDDLE : Z := 0x112.

(** [state[i] = f(state[i])], the shape of every in-place update of a row. *)
Definition update (state : list slot) (i : nat) (f : slot → slot)
  : res (list slot) :=
  s ← getitem state i; setitem state i (f s).

(** [{BTN_LEFT: 0, BTN_RIGHT: 1, BTN_MIDDLE: 2}[event.code]], guarded by
    the membership test before it. *)
Definition button_bit (code : Z) : option Z :=
  if code =? BTN_LEFT then Some 0
  else if code =? BTN_RIGHT then Some 1
  else if code =? BTN_MIDDLE then Some 2
  else None.

(** The body of [for event in dev.read()] for the device at position [i]. *)
Definition handle_event (i : nat) (event : input_event) (state : list slot)
  : res (list slot) :=
  let v := ev_value event in
  if ev_type event =? EV_REL then
    if ev_code event =? REL_X then
      update state i (λ s, Slot (dx s + v) (dy s) (btns s) (wheel s))
    else if ev_code event =? REL_Y then
      update state i (λ s, Slot (dx s) (dy s + v) (btns s) (wheel s))
    else if ev_code event =? REL_WHEEL then
      update state i (λ s, Slot (dx s) (dy s) (btns s) (wheel s + v))
    else Ok state
  else if ev_type event =? EV_KEY then
    match button_bit (ev_code event) with
    | Some bit =>
        if v =? 0 then
          update state i
            (λ s, Slot (dx s) (dy s)
                    (Z.land (btns s) (Z.lnot (Z.shiftl 1 bit))) (wheel s))
        else
          update state i
            (λ s, Slot (dx s) (dy s)
                    (Z.lor (btns s) (Z.shiftl 1 bit)) (wheel s))
    | None => Ok state
    end
  else Ok state.

(** Events in the order one pass of [for i, dev in enumerate(mice)] visits
    them: [reads !! i] is [None] when [mice[i]] is [None] or not in [r],
    and [Some evs] when [dev.read()] yields [evs]. *)
Definition pending (reads : list (option (list input_event)))
  : list (nat * input_event) :=
  concat (imap (λ i r, match r with
                       | Some evs => (λ e, (i, e)) <$> evs
                       | None => []
                       end) reads).

Definition apply_events (evs : list (nat * input_event)) (state : list slot)
  : res (list slot) :=
  for_each (λ ie st, handle_event (fst ie) (snd ie) st) evs state.

(** Lines 114-119: saturate [state[i][0]] and [state[i][1]]. *)
Definition clamp_motion (state : list slot) : res (list slot) :=
  for_each (λ i st,
      update st i (λ s, Slot (saturate (dx s)) (saturate (dy s))
                          (btns s) (wheel s)))
    (range NUM_MICE_MAX) state.

(** Lines 122-124 (and 83-85): [state[i][0] = state[i][1] = 0;
    state[i][3] = 0]. *)
Definition reset (state : list slot) : res (list slot) :=
  for_each (λ i st, update st i (λ s, Slot 0 0 (btns s) 0))
    (range NUM_MICE_MAX) state.

(** The body of [while True] once the events [evs] have been read, each
    with the position of its device: the packet handed to [ser.write] and
    the state the next iteration starts from. *)
Definition tick (evs : list (nat * input_event)) (state : list slot)
  : res (list Z * list slot) :=
  state ← apply_events evs state;
  state ← clamp_motion state;
  pkt ← make_packet state;
  state ← reset state;
  Ok (pkt, state).

(** One iteration of [while True], after [select] has returned. *)
Definition loop_body (reads : list (option (list input_event)))
    (state : list slot) : res (list Z * list slot) :=
  tick (pending reads) state.

(** *** Finding the mice

    One path of [evdev.list_devices()]: [node_caps] is what
    [InputDevice(path).capabilities()] returns, a dictionary from event
    types to the codes the device supports, or [None] when opening the
    path raises [OSError] or [PermissionError]. *)

Record node : Type := Node { node_path : string; node_caps : option (gmap Z (list Z)) }.

(** The test of lines 35-37 on the capabilities of an opened device. *)
Definition is_mouse (caps : gmap Z (list Z)) : bool :=
  match caps !! EV_REL, caps !! EV_KEY with
  | Some rels, Some _ =>
      bool_decide (REL_X ∈ rels) && bool_decide (REL_Y ∈ rels)
  | _, _ => false
  end.

(** The loop of [find_mice], with [devices] the list built so far. *)
Fixpoint find_mice_loop (limit : nat) (nodes devices : list node)
  : list node :=
  match nodes with
  | [] => devices
  | nd :: nodes' =>
      match node_caps nd with
      | Some caps =>
          if is_mouse caps then
            let devices := devices ++ [nd] in
            if (limit <=? length devices)%nat then devices
            else find_mice_loop limit nodes' devices
          else find_mice_loop limit nodes' devices
      | None => find_mice_loop limit nodes' devices
      end
  end.

Definition find_mice (limit : nat) (nodes : list node) : list node :=
  find_mice_loop limit nodes [].

(** Lines 52-56 and 87-90 of [main]: the list [mice], padded with [None]
    to [NUM_MICE_MAX] entries, or the exit when no mouse is found. *)
Definition open_mice (nodes : list node) : res (list (option node)) :=
  let mice := Some <$> find_mice NUM_MICE_MAX nodes in
  let mice := mice ++ replicate (NUM_MICE_MAX - length mice) None in
  let active := omap id mice in
  match active with
  | [] => Raise (SystemExit 1)
  | _ => Ok mice
  end.

(** *** The cadence of the loop

    Times are in microseconds.  One turn of [while True] blocks in
    [select.select(active + [ser], [], [], 0.02)], which returns when a
    descriptor becomes readable ([ready_after], [None] when none does) or
    when the timeout expires, whichever comes first; reading the events and
    building the packet then takes [handling]. *)

Definition SELECT_TIMEOUT : Z := 20000.

Record turn : Type := Turn { ready_after : option Z; handling : Z }.

(** What one turn does with the clock. *)
Record wait : Type :=
  Wait { called_at : Z; timeout : Z; written_at : Z }.

Fixpoint waits (now : Z) (turns : list turn) : list wait :=
  match turns with
  | [] => []
  | t :: turns' =>
      let timeout := SELECT_TIMEOUT in
      let blocked := match ready_after t with
                     | Some r => Z.min r timeout
                     | None => timeout
                     end in
      let written := now + blocked + handling t in
      Wait now timeout written :: waits written turns'
  end.

End HostSendMice.

(** ** Python floats *)

Definition prec : Z := 53.
Definition emax : Z := 1024.

(** [float(n)] for an integer [n]: the nearest binary64, ties to even;
    [OverflowError] when [n] is too large. *)
Definition float_of_int (n : Z) : res spec_float :=
  match binary_normalize prec emax n 0 false with
  | S754_infinity _ => Raise OverflowError
  | f => Ok f
  end.

(** The float an integer literal in a float expression stands for. *)
Definition float_lit (n : Z) : spec_float := binary_normalize prec emax n 0 false.

(** [m * 2**e] for [0 < m], rounded to the nearest integer, ties to even. *)
Definition round_half_even (m e : Z) : Z :=
  if 0 <=? e then m * 2 ^ e
  else
    let d := 2 ^ (- e) in
    let q := m / d in
    let r := m mod d in
    if 2 * r <? d then q
    else if 2 * r >? d then q + 1
    else if Z.even q then q else q + 1.

(** [round(x)] with one argument: an [int]. *)
Definition py_round (x : spec_float) : res Z :=
  match x with
  | S754_zero _ => Ok 0
  | S754_infinity _ => Raise OverflowError
  | S754_nan => Raise ValueError
  | S754_finite s m e => Ok (cond_Zopp s (round_half_even (Zpos m) e))
  end.

(** [int(x)] of a float: truncation towards zero. *)
Definition int_of_float (x : spec_float) : res Z :=
  match x with
  | S754_zero _ => Ok 0
  | S754_infinity _ => Raise OverflowError
  | S754_nan => Raise ValueError
  | S754_finite s m e =>
      Ok (cond_Zopp s (if 0 <=? e then Zpos m * 2 ^ e else Zpos m / 2 ^ (- e)))
  end.

(** [x / y] on floats: [ZeroDivisionError] when [y] is zero. *)
Definition py_truediv (x y : spec_float) : res spec_float :=
  match y with
  | S754_zero _ => Raise ZeroDivisionError
  | _ => Ok (SFdiv prec emax x y)
  end.

(** ** [scripts/send_settings.py] *)

Module SendSettings.

Local Open Scope string_scope.
Local Open Scope Z_scope.

Definition LOGIC_MODES : gmap string Z :=
  list_to_map
    [("sum", 0); ("average", 1); ("max", 2);
     ("min", 3); ("and", 4); ("or", 5); ("xor", 6);
     ("nand", 7); ("nor", 8); ("xnor", 9)].
Definition INPUT_MODES : gmap string Z :=
  list_to_map [("uart", 0); ("quadrature", 1); ("both", 2)].
Definition OUTPUT_MODES : gmap string Z :=
  list_to_map [("combined", 0); ("separate", 1)].

Definition UART_CONFIG_SYNC1 : Z := 0x55.
Definition UART_CONFIG_SYNC2 : Z := 0xCF.
Definition UART_CONFIG_CMD : Z := 0x01.

(** [bytes([...])]: every element must be in [range(0, 256)]. *)
Definition bytes (l : list Z) : res (list Z) :=
  if forallb is_byte l then Ok l else Raise ValueError.

(** Line 58: [max(10, min(1000, int(round(amplify * 100))))]. *)
Definition amplify_x100 (amplify : spec_float) : res Z :=
  r ← py_round (SFmul prec emax amplify (float_lit 100));
  Ok (Z.max 10 (Z.min 1000 r)).

Definition build_packet (num_mice logic_mode input_mode output_mode : Z)
    (amplify : spec_float) (quad_scale : Z) (save : bool) : res (list Z) :=
  amplify_x100 ← amplify_x100 amplify;
  let q_lo := Z.land quad_scale 0xFF in
  let q_hi := Z.land (Z.shiftr quad_scale 8) 0xFF in
  bytes [UART_CONFIG_SYNC1; UART_CONFIG_SYNC2; UART_CONFIG_CMD;
         Z.land num_mice 0xFF; Z.land logic_mode 0xFF;
         Z.land input_mode 0xFF; Z.land output_mode 0xFF;
         Z.land amplify_x100 0xFF; q_lo; q_hi;
         if save then 1 else 0].

(** A value [load_yaml] stores: an [int] when the text is all digits, a
    [float] when [float(val)] accepts it, the text itself otherwise. *)
Inductive yaml_value : Type :=
  | YInt (n : Z)
  | YFloat (f : spec_float)
  | YStr (s : string).

(** [int(v)] on a stored value.  A [YStr] holds a text that [float()]
    has refused; [int()] refuses every such text as well. *)
Definition py_int (v : yaml_value) : res Z :=
  match v with
  | YInt n => Ok n
  | YFloat f => int_of_float f
  | YStr _ => Raise ValueError
  end.

(** [float(v)] on a stored value. *)
Definition py_float (v : yaml_value) : res spec_float :=
  match v with
  | YInt n => float_of_int n
  | YFloat f => Ok f
  | YStr _ => Raise ValueError
  end.

Definition lower_ascii (c : ascii) : ascii :=
  let n := nat_of_ascii c in
  if ((65 <=? n) && (n <=? 90))%nat then ascii_of_nat (n + 32) else c.

(** [s.lower()] on ASCII text. *)
Fixpoint lower (s : string) : string :=
  match s with
  | EmptyString => EmptyString
  | String c s' => String (lower_ascii c) (lower s')
  end.

(** [TABLE.get(str(v).lower(), 0)].  [str] of a number is its decimal
    rendering (digits, sign, point, exponent, or [inf] and [nan]), which is
    the key of no table, so the lookup falls to the default. *)
Definition mode_code (table : gmap string Z) (v : yaml_value) : Z :=
  match v with
  | YStr s => default 0 (table !! lower s)
  | YInt _ | YFloat _ => 0
  end.

(** The [argparse] namespace: [None] for an option that is not given. *)
Record args : Type := Args {
  num_mice : option Z;
  logic_mode : option string;
  input_mode : option string;
  output_mode : option string;
  amplify : option spec_float;
  quad_scale : option Z;
  no_save : bool
}.

(** [choices=list(TABLE)]: [parse_args] exits with status 2 on a value
    that is not a key of the table. *)
Definition check_choice (table : gmap string Z) (v : option string)
  : res unit :=
  match v with
  | Some name =>
      if decide (is_Some (table !! name)) then Ok () else Raise (SystemExit 2)
  | None => Ok ()
  end.

Definition parse_args (a : args) : res args :=
  _ ← check_choice LOGIC_MODES (logic_mode a);
  _ ← check_choice INPUT_MODES (input_mode a);
  _ ← check_choice OUTPUT_MODES (output_mode a);
  Ok a.

(** [TABLE[name]] *)
Definition table_get (table : gmap string Z) (name : string) : res Z :=
  match table !! name with
  | Some c => Ok c
  | None => Raise KeyError
  end.

(** [main()], from the parsed configuration file [cfg] on: the bytes
    handed to [ser.write], or the exception that ends the process before
    the port is opened. *)
Definition main (argv : args) (cfg : gmap string yaml_value)
  : res (list Z) :=
  args ← parse_args argv;
  num_mice ← match num_mice args with
             | Some n => Ok n
             | None => py_int (default (YInt 6) (cfg !! "num_mice"))
             end;
  logic_mode ← match logic_mode args with
               | Some name => table_get LOGIC_MODES name
               | None => Ok (mode_code LOGIC_MODES
                               (default (YStr "sum") (cfg !! "logic_mode")))
               end;
  input_mode ← match input_mode args with
               | Some name => table_get INPUT_MODES name
               | None => Ok (mode_code INPUT_MODES
                               (default (YStr "uart") (cfg !! "input_mode")))
               end;
  output_mode ← match output_mode args with
                | Some name => table_get OUTPUT_MODES name
                | None => Ok (mode_code OUTPUT_MODES
                                (default (YStr "combined")
                                   (cfg !! "output_mode")))
                end;
  amplify ← match amplify args with
            | Some f => Ok f
            | None => py_float (default (YFloat (float_lit 1))
                                  (cfg !! "amplify"))
            end;
  quad_scale ← match quad_scale args with
               | Some n => Ok n
               | None => py_int (default (YInt 2) (cfg !! "quad_scale"))
               end;
  if (num_mice <? 2) || (num_mice >? 6) then Raise (SystemExit 1)
  else
    let quad_scale := if quad_scale <? 1 then 1 else quad_scale in
    build_packet num_mice logic_mode input_mode output_mode amplify
      quad_scale (negb (no_save args)).

(** [main()] from its first line.  [load_yaml] itself is not embedded (a
    regular expression, the Unicode tests of [str.isdigit] and
    [str.strip], the syntax of [float]): [loaded] is its outcome, the
    dictionary it returns or the exception it raises, such as the
    [ValueError] of [int(val)] on line 47 or an error in opening the file.
    The command line is parsed (line 80) before the file is read (line
    88). *)
Definition script (argv : args) (loaded : res (gmap string yaml_value))
  : res (list Z) :=
  _ ← parse_args argv;
  cfg ← loaded;
  main argv cfg.

End SendSettings.

(** ** [scripts/test_random_mice.py] *)

Module TestRandomMice.

Definition SYNC : Z := 0xAA.
Definition PACKET_LEN : nat := 15.
Definition NUM_MICE_MAX : nat := 6.

(** [max(-128, min(127, int(x)))] on an [int]. *)
Definition clamp_s8 (x : Z) : Z := Z.max (-128) (Z.min 127 x).

(** [make_packet(deltas)]; a row [[dx, dy]] of [deltas] is a pair. *)
Definition make_packet (deltas : list (Z * Z)) : res (list Z) :=
  let buf := bytearray PACKET_LEN in
  buf ← setbyte buf 0 SYNC;
  buf ← for_each (λ i buf,
           d ← getitem deltas i;
           buf ← setbyte buf (1 + i * 2) (Z.land (clamp_s8 (fst d)) 0xFF);
           setbyte buf (2 + i * 2) (Z.land (clamp_s8 (snd d)) 0xFF))
         (range NUM_MICE_MAX) buf;
  buf ← setbyte buf 13 0;
  buf ← setbyte buf 14 0;
  Ok buf.

(** [random.randint(lo, hi)] as a function of the generator's raw draw. *)
Definition randint (lo hi raw : Z) : Z := lo + raw mod (hi - lo + 1).

Record args : Type := Args { single : option Z; magnitude : Z }.

(** Lines 67-69: [--single] outside [0 .. NUM_MICE_MAX - 1] exits. *)
Definition check_single (a : args) : res unit :=
  match single a with
  | Some n =>
      if (n <? 0) || (n >=? Z.of_nat NUM_MICE_MAX) then Raise (SystemExit 1)
      else Ok ()
  | None => Ok ()
  end.

Section Generator.

(** The raw draws of the random generator, in the order they are made. *)
Variable entropy : nat → Z.

(** [deltas[i][0] = randint(-mag, mag); deltas[i][1] = randint(-mag, mag)],
    with [k] the number of draws made so far. *)
Definition fill (mag : Z) (i : nat) (st : list (Z * Z) * nat)
  : res (list (Z * Z) * nat) :=
  let k := snd st in
  _ ← getitem (fst st) i;
  let x := randint (- mag) mag (entropy k) in
  let y := randint (- mag) mag (entropy (S k)) in
  deltas ← setitem (fst st) i (x, y);
  Ok (deltas, S (S k)).

(** Lines 91-99: the deltas of one iteration. *)
Definition sample (single : option Z) (mag : Z) (k : nat)
  : res (list (Z * Z) * nat) :=
  let deltas := replicate NUM_MICE_MAX (0, 0) in
  match single with
  | Some i => fill mag (Z.to_nat i) (deltas, k)
  | None => for_each (fill mag) (range NUM_MICE_MAX) (deltas, k)
  end.

(** The packets the first [n] iterations hand to [ser.write]. *)
Fixpoint frames (single : option Z) (mag : Z) (n k : nat)
  : res (list (list Z)) :=
  match n with
  | O => Ok []
  | S n' =>
      dk ← sample single mag k;
      pkt ← make_packet (fst dk);
      rest ← frames single mag n' (snd dk);
      Ok (pkt :: rest)
  end.

Definition main (a : args) (n : nat) : res (list (list Z)) :=
  _ ← check_single a;
  let mag := Z.max 1 (Z.min 127 (magnitude a)) in
  frames (single a) mag n 0.

End Generator.

(** The options of lines 52-56 that [args] does not hold: the positional
    [port], [--port] and [--rate]. *)
Record options : Type := Options {
  opt_port : option string;
  opt_port_opt : option string;
  opt_rate : spec_float;
  opt_args : args
}.

(** [args.port_opt or args.port]: the first, unless it is [None] or
    empty. *)
Definition chosen_port (o : options) : option string :=
  match opt_port_opt o with
  | Some s => if decide (s = EmptyString) then opt_port o else Some s
  | None => opt_port o
  end.

(** Lines 67-75, what [main] does before the loop: the check of
    [--single], the port ([ap.error] exits with status 2 when there is
    none) and the period [1.0 / args.rate].  Opening the port
    ([serial.Serial]) is outside. *)
Definition start_up (o : options) : res (string * spec_float) :=
  _ ← check_single (opt_args o);
  port ← match chosen_port o with
         | Some s =>
             if decide (s = EmptyString) then Raise (SystemExit 2) else Ok s
         | None => Raise (SystemExit 2)
         end;
  interval ← py_truediv (float_lit 1) (opt_rate o);
  Ok (port, interval).

(** [main()] from its first line: the packets of the first [n] iterations
    of the loop, when the loop is reached. *)
Definition script (entropy : nat → Z) (o : options) (n : nat)
  : res (list (list Z)) :=
  _ ← start_up o;
  main entropy (opt_args o) n.

(** *** The cadence of the loop

    Times are in microseconds, [interval] is [1.0 / args.rate] and
    [--duration] is 0, so the loop does not break.  An iteration that
    begins at [now] writes its packet, reads the clock [work] later (line
    108), and sleeps when [sleep_time > 0]; [time.sleep] returns
    [oversleep] after the time asked for. *)

Record lap : Type := Lap { work : Z; oversleep : Z }.

Record pace : Type :=
  Pace { begun_at : Z; next_until : Z; sleep_time : Z }.

Fixpoint pacing (start interval : Z) (packets : nat) (now : Z)
    (laps : list lap) : list pace :=
  match laps with
  | [] => []
  | l :: laps' =>
      let packets := S packets in
      let next_until := start + (Z.of_nat packets + 1) * interval in
      let clock := now + work l in
      let sleep_time := next_until - clock in
      let woken := if sleep_time >? 0 then clock + sleep_time + oversleep l
                   else clock in
      Pace now next_until sleep_time
        :: pacing start interval packets woken laps'
  end.

End TestRandomMice.

(** ** Vocabulary of the properties *)

Import HostSendMice.

(** Saturating clamp of [x] to [[lo, hi]]. *)
Definition clamp (x lo hi : Z) : Z :=
  if x <? lo then lo else if x >? hi then hi else x.

(** The byte that holds the signed value [x] in two's complement. *)
Definition int8 (x : Z) : Z := if x <? 0 then x + 256 else x.

(** The signed value a byte [b] holds in two's complement. *)
Definition signed8 (b : Z) : Z := if b >=? 128 then b - 256 else b.

(** Signed 8-bit wraparound of an integer. *)
Definition wrap8 (x : Z) : Z := signed8 (x mod 256).

Definition total (l : list Z) : Z := foldr Z.add 0 l.

(** The values of the [EV_REL] events with code [axis] that [evs] holds
    for the device at position [i], in arrival order. *)
Fixpoint deltas (axis : Z) (i : nat) (evs : list (nat * input_event))
  : list Z :=
  match evs with
  | [] => []
  | je :: evs' =>
      if ((fst je =? i)%nat && (ev_type (snd je) =? EV_REL)
          && (ev_code (snd je) =? axis))%bool
      then ev_value (snd je) :: deltas axis i evs'
      else deltas axis i evs'
  end.

(** Offsets 1..12: [dx & 0xFF, dy & 0xFF] for each row in turn. *)
Definition motion_bytes (state : list slot) : list Z :=
  s ← state; [Z.land (dx s) 0xFF; Z.land (dy s) 0xFF].

(** The value the loop of lines 69-70 leaves in [buf[13]]. *)
Definition button_field (state : list slot) : Z :=
  foldl (λ b s, Z.lor b (Z.land (btns s) 0x07)) 0 state.

(** The value the loop of lines 72-78 leaves in [buf[14]]. *)
Definition wheel_field (state : list slot) : Z :=
  foldl (λ b s, Z.land (b + saturate (wheel s)) 0xFF) 0 state.

(** The sum of the wheel accumulators, each clamped to [[-128, 127]]. *)
Definition wheel_total (state : list slot) : Z :=
  total ((λ s, clamp (wheel s) (-128) 127) <$> state).

(** A row after lines 114-119, and after lines 122-124. *)
Definition clamped (s : slot) : slot :=
  Slot (saturate (dx s)) (saturate (dy s)) (btns s) (wheel s).
Definition cleared (s : slot) : slot := Slot 0 0 (btns s) 0.

(** A snapshot within the valid ranges. *)
Definition valid_slot (s : slot) : Prop :=
  -128 <= dx s <= 127 ∧ -128 <= dy s <= 127 ∧
  0 <= btns s < 8 ∧ -128 <= wheel s <= 127.
Definition valid_snapshot (state : list slot) : Prop :=
  length state = 6%nat ∧ Forall valid_slot state.

(** Accumulators as every iteration finds them. *)
Definition at_rest (s : slot) : Prop := dx s = 0 ∧ dy s = 0 ∧ wheel s = 0.

(** Modelled from the spec: the decoder of the telemetry frame, which the
    firmware holds and the host scripts do not; it reads the layout of
    section 4.2, six pairs of signed bytes at offsets 1..12. *)
Fixpoint decode_pairs (bs : list Z) : list (Z * Z) :=
  match bs with
  | x :: y :: bs' => (signed8 x, signed8 y) :: decode_pairs bs'
  | _ => []
  end.
Definition decode_motion (pkt : list Z) : list (Z * Z) :=
  decode_pairs (take 12 (drop 1 pkt)).

(** The snapshot of one wheel notch down on the first mouse. *)
Definition notch_down : list slot := <[0%nat := Slot 0 0 0 (-1)]> initial_state.

(** A burst of events from three mice within one iteration. *)
Definition burst : list (nat * input_event) :=
  [(0%nat, InputEvent EV_REL REL_X 100); (1%nat, InputEvent EV_REL REL_X 5);
   (0%nat, InputEvent EV_REL REL_X 100); (0%nat, InputEvent EV_REL REL_Y (-3));
   (2%nat, InputEvent EV_KEY BTN_LEFT 1)].

(** A state with motion, wheel and two buttons on the third mouse. *)
Definition pressed : list slot := <[2%nat := Slot 7 (-9) 5 3]> initial_state.

(** Two snapshots that differ only in which mouse holds the left button
    and the wheel notch. *)
Definition left_on_first : list slot :=
  <[0%nat := Slot 3 (-4) 1 1]> initial_state.
Definition left_on_second : list slot :=
  <[0%nat := Slot 3 (-4) 0 0]> (<[1%nat := Slot 0 0 1 1]> initial_state).

(** The floats [2.5], [12.0] and [0.01] (the binary64 nearest to 1/100,
    [0x3F847AE147AE147B]). *)
Definition two_and_a_half : spec_float := S754_finite false 5629499534213120 (-51).
Definition twelve : spec_float := S754_finite false 6755399441055744 (-49).
Definition hundredth : spec_float := S754_finite false 5764607523034235 (-59).

(** The record of the example: six devices, xor, both, separate, 2.5, 4,
    persist. *)
Definition example_args : SendSettings.args :=
  SendSettings.Args (Some 6) (Some "xor"%string) (Some "both"%string)
    (Some "separate"%string) (Some two_and_a_half) (Some 4) false.

(** No option on the command line. *)
Definition no_args : SendSettings.args :=
  SendSettings.Args None None None None None None false.

(** A configuration file whose [logic_mode] is not a name of the table. *)
Definition bogus_cfg : gmap string SendSettings.yaml_value :=
  {[ "logic_mode"%string := SendSettings.YStr "bogus" ]}.

(** Two turns of the aggregator loop in which an event arrives one
    millisecond after [select] is called. *)
Definition early_events : list turn :=
  [Turn (Some 1000) 0; Turn (Some 1000) 0].

(** Laps of the synthetic source at 50 Hz: a late first lap, then short
    ones. *)
Definition late_then_short : list TestRandomMice.lap :=
  [TestRandomMice.Lap 45000 0; TestRandomMice.Lap 100 0;
   TestRandomMice.Lap 100 0].

(** How far one event moves the accumulators of the row at position [i]. *)
Definition moves (je : nat * input_event) (i : nat) (s s' : slot) : Prop :=
  dx s' = dx s + total (deltas REL_X i [je])
  ∧ dy s' = dy s + total (deltas REL_Y i [je])
  ∧ wheel s' = wheel s + total (deltas REL_WHEEL i [je]).

(** A name on the command line that is not a key of its table. *)
Definition bad_choice (a : SendSettings.args) : Prop :=
  (∃ name, SendSettings.logic_mode a = Some name
           ∧ SendSettings.LOGIC_MODES !! name = None)
  ∨ (∃ name, SendSettings.input_mode a = Some name
             ∧ SendSettings.INPUT_MODES !! name = None)
  ∨ (∃ name, SendSettings.output_mode a = Some name
             ∧ SendSettings.OUTPUT_MODES !! name = None).

(** The configuration file gives, under [key], a name that is not a key
    of [table]. *)
Definition unknown_in_file (table : gmap string Z) (key : string)
    (cfg : gmap string SendSettings.yaml_value) : Prop :=
  ∃ name, cfg !! key = Some (SendSettings.YStr name)
          ∧ table !! SendSettings.lower name = None.

(** The number of mice [main] arrives at is [n]. *)
Definition resolved_num_mice (a : SendSettings.args)
    (cfg : gmap string SendSettings.yaml_value) (n : Z) : Prop :=
  SendSettings.num_mice a = Some n
  ∨ (SendSettings.num_mice a = None
     ∧ SendSettings.py_int
         (default (SendSettings.YInt 6) (cfg !! "num_mice"%string)) = Ok n).

(** A listed path that opens and has the capabilities of a mouse. *)
Definition qualifies (nd : node) : bool :=
  match node_caps nd with
  | Some caps => is_mouse caps
  | None => false
  end.

(** Listings for the examples: a keyboard, a node that cannot be opened
    and two mice. *)
Definition mouse_caps : gmap Z (list Z) :=
  {[ EV_KEY := [BTN_LEFT; BTN_RIGHT]; EV_REL := [REL_X; REL_Y; REL_WHEEL] ]}.
Definition keyboard_caps : gmap Z (list Z) := {[ EV_KEY := [30; 31] ]}.
Definition listing : list node :=
  [Node "event0" (Some keyboard_caps); Node "event1" None;
   Node "event2" (Some mouse_caps); Node "event3" (Some mouse_caps)].

(** A float that is zero or negative. *)
Definition nonpositive (x : spec_float) : bool :=
  match x with
  | S754_zero _ => true
  | S754_finite s _ _ => s
  | _ => false
  end.

(** [-0.5], and a command line that gives every option. *)
Definition minus_half : spec_float := S754_finite true 4503599627370496 (-53).
Definition full_args : SendSettings.args :=
  SendSettings.Args (Some 4) (Some "or"%string) (Some "uart"%string)
    (Some "combined"%string) (Some twelve) (Some 0) true.

(** ** The telemetry frame as a function of the snapshot *)

Lemma bind_Ok {A B : Type} (a : A) (f : A → res B) : Ok a ≫= f = f a.
Proof. reflexivity. Qed.

Lemma land_255_mod (x : Z) : Z.land x 0xFF = x mod 256.
Proof. change 0xFF with (Z.ones 8). now rewrite Z.land_ones. Qed.

Lemma is_byte_spec (v : Z) : is_byte v = true ↔ 0 <= v < 256.
Proof. unfold is_byte. rewrite andb_true_iff, Z.leb_le, Z.ltb_lt. tauto. Qed.

Lemma is_byte_land (x : Z) : is_byte (Z.land x 0xFF) = true.
Proof.
  apply is_byte_spec. rewrite land_255_mod. apply Z.mod_pos_bound. lia.
Qed.

Lemma land_7_bounds (x : Z) : 0 <= Z.land x 0x07 < 8.
Proof.
  change 0x07 with (Z.ones 3). rewrite Z.land_ones by lia.
  apply Z.mod_pos_bound. lia.
Qed.

Lemma log2_below (n a : Z) : 0 < n → 0 <= a < 2 ^ n → Z.log2 a < n.
Proof.
  intros Hn [H0 H]. destruct (Z.eq_dec a 0) as [->|]; [done|].
  apply Z.log2_lt_pow2; lia.
Qed.

Lemma lor_below (n a b : Z) :
  0 <= n → 0 <= a < 2 ^ n → 0 <= b < 2 ^ n → 0 <= Z.lor a b < 2 ^ n.
Proof.
  intros Hn Ha Hb.
  assert (0 <= Z.lor a b) as H0 by (apply Z.lor_nonneg; lia).
  split; [done|].
  destruct (Z.eq_dec (Z.lor a b) 0) as [->|Hne]; [lia|].
  destruct (Z.eq_dec n 0) as [->|].
  { change (2 ^ 0) with 1 in *.
    replace a with 0 in Hne by lia. replace b with 0 in Hne by lia. done. }
  apply Z.log2_lt_pow2; [lia|].
  rewrite Z.log2_lor by lia.
  apply Z.max_lub_lt; apply log2_below; lia.
Qed.

Lemma button_step_bounds (b x : Z) :
  0 <= b < 8 → 0 <= Z.lor b (Z.land x 0x07) < 8.
Proof.
  intros Hb. apply (lor_below 3); [lia|done|apply land_7_bounds].
Qed.

Lemma is_byte_button_step (b x : Z) :
  0 <= b < 8 → is_byte (Z.lor b (Z.land x 0x07)) = true.
Proof. intros Hb. apply is_byte_spec. pose proof (button_step_bounds b x Hb). lia. Qed.

Lemma six_slots (state : list slot) :
  length state = 6%nat →
  ∃ s0 s1 s2 s3 s4 s5, state = [s0; s1; s2; s3; s4; s5].
Proof.
  intros H.
  do 6 (destruct state as [|? state]; [discriminate|]).
  destruct state; [|discriminate]. eauto 10.
Qed.

Lemma is_byte_land_less (x : Z) : is_byte (Z.land x 0xFF - 256) = false.
Proof.
  apply not_true_is_false. rewrite is_byte_spec.
  pose proof (proj1 (is_byte_spec _) (is_byte_land x)). lia.
Qed.

Ltac frame_step :=
  cbn -[is_byte Z.land Z.lor saturate Z.add Z.geb Z.sub];
  first
    [ rewrite is_byte_land
    | rewrite is_byte_button_step
        by (repeat (apply button_step_bounds); lia)
    | progress change (is_byte SYNC) with true
    | progress change (is_byte TestRandomMice.SYNC) with true
    | progress change (is_byte 0) with true ].

Lemma make_packet_eq (state : list slot) :
  length state = 6%nat →
  make_packet state =
    if wheel_field state >=? 128 then Raise ValueError
    else Ok (SYNC :: motion_bytes state
               ++ [button_field state; wheel_field state]).
Proof.
  intros H. destruct (six_slots state H) as (s0&s1&s2&s3&s4&s5&->).
  unfold make_packet.
  repeat frame_step.
  cbn -[is_byte Z.land Z.lor saturate Z.add Z.geb Z.sub].
  rewrite is_byte_land_less.
  unfold motion_bytes, button_field, wheel_field.
  cbn -[is_byte Z.land Z.lor saturate Z.add Z.geb Z.sub].
  now destruct (_ >=? 128).
Qed.


Lemma saturate_clamp (x : Z) : saturate x = clamp x (-128) 127.
Proof. unfold saturate, clamp. repeat case_match; lia. Qed.

Lemma wheel_fold (l : list slot) (b : Z) :
  foldl (λ b s, Z.land (b + saturate (wheel s)) 0xFF) (b mod 256) l
  = (b + total ((λ s, clamp (wheel s) (-128) 127) <$> l)) mod 256.
Proof.
  revert b. induction l as [|s l IH]; intros b; cbn -[Z.land].
  - now rewrite Z.add_0_r.
  - rewrite land_255_mod, IH, saturate_clamp.
    cbn. rewrite <- Z.add_assoc. apply Zplus_mod_idemp_l.
Qed.

(** The running byte of lines 72-78 is the sum of the clamped wheels
    modulo 256. *)
Lemma wheel_field_mod (state : list slot) :
  wheel_field state = wheel_total state mod 256.
Proof. apply (wheel_fold state 0). Qed.

Lemma wrap8_neg (x : Z) : wrap8 x < 0 ↔ 128 <= x mod 256.
Proof.
  unfold wrap8, signed8. pose proof (Z.mod_pos_bound x 256).
  destruct (Z.geb_spec (x mod 256) 128); lia.
Qed.

(** C1.  The frame encoder of [host_send_mice.py] is not total on clamped
    snapshots: for a snapshot that is all zero except for a wheel
    accumulator of -1 (a snapshot within every range, whose wheels sum to
    a negative value), [make_packet] raises [ValueError] at
    [buf[14] -= 256], and so does the loop iteration that reads one wheel
    notch down from the first mouse. *)
Theorem make_packet_raises_on_negative_wheel :
  valid_snapshot notch_down
  ∧ make_packet notch_down = Raise ValueError
  ∧ loop_body [Some [InputEvent EV_REL REL_WHEEL (-1)];
               None; None; None; None; None] initial_state
    = Raise ValueError.
Proof.
  split; [|split]; [|reflexivity..].
  split; [reflexivity|].
  repeat constructor; cbn; lia.
Qed.

(** C2.  For a snapshot of six slots, a frame is emitted exactly when the
    signed 8-bit wraparound sum of the clamped wheel accumulators is not
    negative, and its byte at offset 14 is then that sum; when the sum
    wraps to a negative value, the reinterpretation [buf[14] -= 256]
    raises [ValueError] and no frame is emitted. *)
Theorem wheel_byte_of_frame (state : list slot) :
  length state = 6%nat →
  (wrap8 (wheel_total state) < 0 → make_packet state = Raise ValueError)
  ∧ (0 <= wrap8 (wheel_total state) →
     ∃ pkt, make_packet state = Ok pkt
            ∧ pkt !! 14%nat = Some (wrap8 (wheel_total state))).
Proof.
  intros H. rewrite (make_packet_eq state H), wheel_field_mod.
  pose proof (wrap8_neg (wheel_total state)) as Hneg.
  unfold wrap8, signed8 in *.
  destruct (Z.geb_spec (wheel_total state mod 256) 128) as [Hge|Hlt].
  - split; [done|]. lia.
  - split; [lia|]. intros _. eexists. split; [done|].
    destruct (six_slots state H) as (s0&s1&s2&s3&s4&s5&->).
    reflexivity.
Qed.

Lemma wheel_byte_of_frame_witness :
  make_packet notch_down = Raise ValueError.
Proof.
  apply (wheel_byte_of_frame notch_down); [reflexivity|].
  vm_compute. reflexivity.
Defined.

(** ** The accumulators across one iteration *)

Lemma clamp_motion_eq (state : list slot) :
  length state = 6%nat → clamp_motion state = Ok (clamped <$> state).
Proof.
  intros H. destruct (six_slots state H) as (s0&s1&s2&s3&s4&s5&->).
  reflexivity.
Qed.

Lemma reset_eq (state : list slot) :
  length state = 6%nat → reset state = Ok (cleared <$> state).
Proof.
  intros H. destruct (six_slots state H) as (s0&s1&s2&s3&s4&s5&->).
  reflexivity.
Qed.

Lemma update_ok (state : list slot) (i : nat) (f : slot → slot) (s : slot) :
  state !! i = Some s → update state i f = Ok (<[i := f s]> state).
Proof.
  intros H. unfold update, getitem. rewrite H.
  change (setitem state i (f s) = Ok (<[i := f s]> state)).
  unfold setitem. apply lookup_lt_Some in H.
  now apply Nat.ltb_lt in H as ->.
Qed.

Lemma update_lookup (state : list slot) (j : nat) (f : slot → slot) :
  (j < length state)%nat →
  ∃ state', update state j f = Ok state'
            ∧ length state' = length state
            ∧ ∀ i s, state !! i = Some s →
                state' !! i = Some (if (j =? i)%nat then f s else s).
Proof.
  intros Hj. destruct (lookup_lt_is_Some_2 state j Hj) as [sj Hsj].
  eexists. split; [apply (update_ok _ _ _ _ Hsj)|].
  split; [apply length_insert|]. intros i s Hi.
  destruct (Nat.eqb_spec j i) as [->|Hne].
  - rewrite list_lookup_insert_eq by done. congruence.
  - now rewrite list_lookup_insert_ne.
Qed.

Lemma handle_event_ok (j : nat) (e : input_event) (state : list slot) :
  (j < length state)%nat →
  ∃ state', handle_event j e state = Ok state'
            ∧ length state' = length state
            ∧ ∀ i s, state !! i = Some s →
                ∃ s', state' !! i = Some s' ∧ moves (j, e) i s s'.
Proof.
  intros Hj.
  assert (∀ f : slot → slot,
    (∀ i s, moves (j, e) i s (if (j =? i)%nat then f s else s)) →
    ∃ state', update state j f = Ok state'
            ∧ length state' = length state
            ∧ ∀ i s, state !! i = Some s →
                ∃ s', state' !! i = Some s' ∧ moves (j, e) i s s') as Hup.
  { intros f Hf. destruct (update_lookup state j f Hj) as (st&->&Hlen&Hst).
    exists st. split; [done|]. split; [done|]. intros i s Hi.
    eexists. split; [apply (Hst _ _ Hi)|]. apply Hf. }
  assert ((∀ i s, moves (j, e) i s s) →
    ∃ state', Ok state = Ok state'
            ∧ length state' = length state
            ∧ ∀ i s, state !! i = Some s →
                ∃ s', state' !! i = Some s' ∧ moves (j, e) i s s') as Hid.
  { intros Hf. exists state. split; [done|]. split; [done|]. eauto. }
  unfold handle_event.
  destruct (ev_type e =? EV_REL) eqn:Ht.
  - destruct (ev_code e =? REL_X) eqn:Hx;
      [|destruct (ev_code e =? REL_Y) eqn:Hy;
        [|destruct (ev_code e =? REL_WHEEL) eqn:Hw]].
    + apply Hup. intros i s. unfold moves. cbn -[Z.add]. rewrite Ht, Hx.
      apply Z.eqb_eq in Hx. rewrite Hx.
      destruct (j =? i)%nat; cbn; lia.
    + apply Hup. intros i s. unfold moves. cbn -[Z.add]. rewrite Ht, Hx, Hy.
      apply Z.eqb_eq in Hy. rewrite Hy.
      destruct (j =? i)%nat; cbn; lia.
    + apply Hup. intros i s. unfold moves. cbn -[Z.add].
      rewrite Ht, Hx, Hy, Hw.
      destruct (j =? i)%nat; cbn; lia.
    + apply Hid. intros i s. unfold moves. cbn -[Z.add].
      rewrite Ht, Hx, Hy, Hw.
      destruct (j =? i)%nat; cbn; lia.
  - assert (∀ (f : slot → slot),
              (∀ s, dx (f s) = dx s ∧ dy (f s) = dy s ∧ wheel (f s) = wheel s) →
              ∀ i s, moves (j, e) i s (if (j =? i)%nat then f s else s))
      as Hkey.
    { intros f Hf i s. unfold moves. cbn -[Z.add]. rewrite Ht.
      destruct (Hf s) as (Hdx&Hdy&Hw).
      destruct (j =? i)%nat; cbn; lia. }
    assert (∀ i s, moves (j, e) i s s) as Hsame.
    { intros i s. specialize (Hkey id (λ _, ltac:(done)) i s).
      now destruct (j =? i)%nat. }
    destruct (ev_type e =? EV_KEY); [|now apply Hid].
    destruct (button_bit (ev_code e)); [|now apply Hid].
    destruct (ev_value e =? 0); apply Hup, Hkey; done.
Qed.

Lemma apply_events_ok (evs : list (nat * input_event)) (state : list slot) :
  Forall (λ je, (fst je < length state)%nat) evs →
  ∃ state', apply_events evs state = Ok state'
            ∧ length state' = length state
            ∧ ∀ i s, state !! i = Some s →
                ∃ s', state' !! i = Some s'
                  ∧ dx s' = dx s + total (deltas REL_X i evs)
                  ∧ dy s' = dy s + total (deltas REL_Y i evs)
                  ∧ wheel s' = wheel s + total (deltas REL_WHEEL i evs).
Proof.
  revert state. induction evs as [|[j e] evs IH]; intros state Hall.
  - exists state. split; [done|]. split; [done|]. intros i s Hi.
    exists s. cbn. split; [done|lia].
  - apply Forall_cons in Hall as [Hj Hall]. cbn in Hj.
    destruct (handle_event_ok j e state Hj) as (st1&H1&Hlen1&Hst1).
    rewrite <- Hlen1 in Hall.
    destruct (IH st1 Hall) as (st2&H2&Hlen2&Hst2).
    exists st2. split; [|split; [congruence|]].
    + unfold apply_events in *. cbn. rewrite H1. exact H2.
    + intros i s Hi.
      destruct (Hst1 i s Hi) as (s1&Hs1&Hx1&Hy1&Hw1).
      destruct (Hst2 i s1 Hs1) as (s2&Hs2&Hx2&Hy2&Hw2).
      exists s2. split; [done|].
      rewrite Hx2, Hy2, Hw2, Hx1, Hy1, Hw1. clear.
      unfold total. cbn -[Z.add].
      repeat case_match; cbn -[Z.add]; lia.
Qed.

Lemma update_length (state state' : list slot) (j : nat) (f : slot → slot) :
  update state j f = Ok state' → length state' = length state.
Proof.
  unfold update, getitem.
  destruct (state !! j) as [s|]; [|done].
  change (setitem state j (f s) = Ok state' → length state' = length state).
  unfold setitem. destruct (j <? length state)%nat; [|done].
  intros [= <-]. apply length_insert.
Qed.

Lemma handle_event_length (j : nat) (e : input_event)
    (state state' : list slot) :
  handle_event j e state = Ok state' → length state' = length state.
Proof.
  unfold handle_event.
  repeat case_match; first [apply update_length | now intros [= <-]].
Qed.

Lemma apply_events_length (evs : list (nat * input_event))
    (state state' : list slot) :
  apply_events evs state = Ok state' → length state' = length state.
Proof.
  revert state. induction evs as [|[j e] evs IH]; intros state.
  - now intros [= <-].
  - unfold apply_events. cbn.
    destruct (handle_event j e state) as [st1|] eqn:H1; [|done].
    cbn. intros H2. apply IH in H2. apply handle_event_length in H1.
    congruence.
Qed.

(** [tick], once the events have been applied. *)
Lemma tick_eq (evs : list (nat * input_event)) (state snap : list slot) :
  length state = 6%nat →
  apply_events evs state = Ok snap →
  tick evs state =
    if wheel_field (clamped <$> snap) >=? 128 then Raise ValueError
    else Ok (SYNC :: motion_bytes (clamped <$> snap)
               ++ [button_field (clamped <$> snap);
                   wheel_field (clamped <$> snap)],
             cleared <$> (clamped <$> snap)).
Proof.
  intros Hlen Hev. pose proof (apply_events_length _ _ _ Hev) as Hsnap.
  rewrite Hlen in Hsnap.
  unfold tick. rewrite Hev, bind_Ok.
  rewrite (clamp_motion_eq snap Hsnap), bind_Ok.
  assert (length (clamped <$> snap) = 6%nat) as Hc
    by now rewrite length_fmap.
  rewrite (make_packet_eq _ Hc).
  destruct (_ >=? 128); [done|]. rewrite bind_Ok.
  now rewrite (reset_eq _ Hc).
Qed.

Lemma motion_bytes_lookup (state : list slot) (i : nat) (s : slot) :
  state !! i = Some s →
  motion_bytes state !! (i * 2)%nat = Some (Z.land (dx s) 0xFF)
  ∧ motion_bytes state !! (1 + i * 2)%nat = Some (Z.land (dy s) 0xFF).
Proof.
  revert i. induction state as [|s0 state IH]; intros i Hi; [done|].
  destruct i as [|i]; cbn in Hi.
  - now injection Hi as ->.
  - apply (IH i Hi).
Qed.

Lemma land_int8 (x : Z) : -128 <= x <= 127 → Z.land x 0xFF = int8 x.
Proof.
  intros Hx. rewrite land_255_mod. unfold int8.
  destruct (Z.ltb_spec x 0); Z.to_euclidean_division_equations; lia.
Qed.

Lemma saturate_bounds (x : Z) : -128 <= saturate x <= 127.
Proof. unfold saturate. repeat case_match; lia. Qed.

Lemma wheel_field_rest (state : list slot) :
  Forall (λ s, wheel s = 0) state → wheel_field state = 0.
Proof.
  intros H. rewrite wheel_field_mod. unfold wheel_total.
  assert (total ((λ s, clamp (wheel s) (-128) 127) <$> state) = 0) as ->;
    [|done].
  induction H as [|s l Hs _ IH]; [done|].
  change (clamp (wheel s) (-128) 127
          + total ((λ s, clamp (wheel s) (-128) 127) <$> l) = 0).
  now rewrite Hs, IH.
Qed.

Lemma no_wheel_deltas (i : nat) (evs : list (nat * input_event)) :
  Forall (λ je, (ev_type (snd je) =? EV_REL)
                && (ev_code (snd je) =? REL_WHEEL) = false) evs →
  deltas REL_WHEEL i evs = [].
Proof.
  induction 1 as [|je evs H _ IH]; [done|]. cbn.
  rewrite <- andb_assoc, H, andb_false_r. exact IH.
Qed.

(** C5.  In an iteration that starts with the accumulators at rest and
    reads any sequence of events from the six device positions, in any
    interleaving, the bytes emitted for slot [i] at offsets [1 + 2i] and
    [2 + 2i] are the two's-complement bytes of the sums of that slot's X
    and Y deltas, clamped to [[-128, 127]]; and a frame is emitted
    whenever the sequence holds no wheel event. *)
Theorem motion_bytes_of_tick (evs : list (nat * input_event))
    (state : list slot) (i : nat) :
  length state = 6%nat →
  Forall at_rest state →
  Forall (λ je, (fst je < 6)%nat) evs →
  (i < 6)%nat →
  (∀ pkt state', tick evs state = Ok (pkt, state') →
     pkt !! (1 + i * 2)%nat
       = Some (int8 (clamp (total (deltas REL_X i evs)) (-128) 127))
     ∧ pkt !! (2 + i * 2)%nat
       = Some (int8 (clamp (total (deltas REL_Y i evs)) (-128) 127)))
  ∧ (Forall (λ je, (ev_type (snd je) =? EV_REL)
                   && (ev_code (snd je) =? REL_WHEEL) = false) evs →
     ∃ pkt state', tick evs state = Ok (pkt, state')).
Proof.
  intros Hlen Hrest Hidx Hi. rewrite <- Hlen in Hidx.
  destruct (apply_events_ok evs state Hidx) as (snap&Hev&Hsnap&Hsum).
  rewrite (tick_eq evs state snap Hlen Hev). split.
  - intros pkt state'. destruct (_ >=? 128); [done|]. intros [= <- _].
    rewrite <- Hlen in Hi.
    destruct (lookup_lt_is_Some_2 state i Hi) as [s Hs].
    destruct (Hsum i s Hs) as (s'&Hs'&Hx&Hy&_).
    rewrite Forall_lookup in Hrest. destruct (Hrest i s Hs) as (Hx0&Hy0&_).
    rewrite Hx0, Z.add_0_l in Hx. rewrite Hy0, Z.add_0_l in Hy.
    assert ((clamped <$> snap) !! i = Some (clamped s')) as Hc
      by now rewrite list_lookup_fmap, Hs'.
    destruct (motion_bytes_lookup _ _ _ Hc) as [Hbx Hby].
    rewrite <- Hx, <- Hy, <- !saturate_clamp.
    rewrite <- !land_int8 by apply saturate_bounds.
    change (2 + i * 2)%nat with (S (1 + i * 2)).
    change (1 + i * 2)%nat with (S (i * 2)).
    cbn [lookup list_lookup].
    split; apply lookup_app_l_Some; [exact Hbx | exact Hby].
  - intros Hnw. rewrite wheel_field_rest; [cbn; eauto|].
    apply Forall_fmap, Forall_lookup. intros j s' Hs'. cbn.
    assert (j < length state)%nat as Hj
      by (rewrite <- Hsnap; eapply lookup_lt_Some, Hs').
    destruct (lookup_lt_is_Some_2 state j Hj) as [s Hs].
    destruct (Hsum j s Hs) as (s''&Hs''&_&_&Hw).
    rewrite Forall_lookup in Hrest. destruct (Hrest j s Hs) as (_&_&Hw0).
    rewrite (no_wheel_deltas j evs Hnw), Hw0 in Hw.
    assert (s' = s'') as -> by congruence. exact Hw.
Qed.

Lemma motion_bytes_of_tick_witness :
  ∃ pkt state', tick burst initial_state = Ok (pkt, state')
                ∧ pkt !! 1%nat = Some 127 ∧ pkt !! 2%nat = Some 253.
Proof.
  destruct (motion_bytes_of_tick burst initial_state 0) as [Hbytes Hemit].
  - reflexivity.
  - repeat constructor.
  - repeat constructor.
  - repeat constructor.
  - destruct Hemit as (pkt & state' & Heq); [repeat constructor|].
    exists pkt, state'. split; [exact Heq|]. apply (Hbytes _ _ Heq).
Defined.

(** C6.  The reset after the write sets [dx], [dy] and [wheel] of all six
    rows to zero and leaves every [btns] as it is; so once an iteration
    has written its frame, the state it leaves has the buttons of the
    snapshot the frame was built from and zero accumulators. *)
Theorem reset_after_frame (evs : list (nat * input_event))
    (state : list slot) :
  length state = 6%nat →
  reset state = Ok ((λ s, Slot 0 0 (btns s) 0) <$> state)
  ∧ ∀ pkt state', tick evs state = Ok (pkt, state') →
      ∃ snap, apply_events evs state = Ok snap
        ∧ length state' = 6%nat
        ∧ ∀ i s, snap !! i = Some s →
                 state' !! i = Some (Slot 0 0 (btns s) 0).
Proof.
  intros Hlen. split; [apply (reset_eq state Hlen)|].
  intros pkt state' Htick.
  destruct (apply_events evs state) as [snap|] eqn:Hev;
    [|unfold tick in Htick; now rewrite Hev in Htick].
  exists snap. split; [done|].
  rewrite (tick_eq evs state snap Hlen Hev) in Htick.
  destruct (_ >=? 128); [done|]. injection Htick as _ <-.
  apply apply_events_length in Hev. split.
  - rewrite !length_fmap. congruence.
  - intros i s Hs. now rewrite !list_lookup_fmap, Hs.
Qed.

Lemma reset_after_frame_witness :
  reset pressed = Ok (<[2%nat := Slot 0 0 5 0]> initial_state).
Proof. apply (reset_after_frame [] pressed). reflexivity. Defined.

(** The accumulators are at rest when the loop is entered and after every
    iteration that writes its frame. *)
Lemma initial_state_at_rest :
  length initial_state = 6%nat ∧ Forall at_rest initial_state.
Proof. split; [reflexivity|repeat constructor]. Qed.

Lemma tick_leaves_at_rest (evs : list (nat * input_event))
    (state state' : list slot) (pkt : list Z) :
  length state = 6%nat →
  tick evs state = Ok (pkt, state') →
  length state' = 6%nat ∧ Forall at_rest state'.
Proof.
  intros Hlen Htick.
  destruct (apply_events evs state) as [snap|] eqn:Hev;
    [|unfold tick in Htick; now rewrite Hev in Htick].
  rewrite (tick_eq evs state snap Hlen Hev) in Htick.
  destruct (_ >=? 128); [done|]. injection Htick as _ <-.
  apply apply_events_length in Hev. split.
  - rewrite !length_fmap. congruence.
  - apply Forall_fmap, Forall_true. intros s. now repeat split.
Qed.

(** ** Decoding the frame *)

Lemma signed8_land (x : Z) : -128 <= x <= 127 → signed8 (Z.land x 0xFF) = x.
Proof.
  intros Hx. rewrite land_255_mod. unfold signed8.
  destruct (Z.geb_spec (x mod 256) 128);
    Z.to_euclidean_division_equations; lia.
Qed.

Lemma decode_pairs_motion (state : list slot) :
  Forall valid_slot state →
  decode_pairs (motion_bytes state) = (λ s, (dx s, dy s)) <$> state.
Proof.
  induction 1 as [|s l (Hx&Hy&_) _ IH]; [done|].
  change (motion_bytes (s :: l))
    with (Z.land (dx s) 0xFF :: Z.land (dy s) 0xFF :: motion_bytes l).
  cbn [decode_pairs]. now rewrite !signed8_land, IH.
Qed.

Lemma motion_bytes_length (state : list slot) :
  length (motion_bytes state) = (2 * length state)%nat.
Proof.
  induction state as [|s l IH]; [done|].
  change (motion_bytes (s :: l))
    with (Z.land (dx s) 0xFF :: Z.land (dy s) 0xFF :: motion_bytes l).
  cbn [length]. lia.
Qed.

(** C7, as the claim states it, fails: two valid snapshots that differ in
    which slot holds the button and the wheel notch have the same frame,
    so no decoder recovers every valid snapshot. *)
Lemma no_decoder_recovers_snapshot :
  ¬ ∃ decode : list Z → list slot,
      ∀ state pkt, valid_snapshot state → make_packet state = Ok pkt →
                   decode pkt = state.
Proof.
  intros [decode Hdec].
  assert (valid_snapshot left_on_first) as H1
    by (split; [reflexivity|repeat constructor; cbn; lia]).
  assert (valid_snapshot left_on_second) as H2
    by (split; [reflexivity|repeat constructor; cbn; lia]).
  pose proof (Hdec left_on_first _ H1 eq_refl) as E1.
  pose proof (Hdec left_on_second _ H2 eq_refl) as E2.
  vm_compute in E1, E2. rewrite E1 in E2. discriminate E2.
Qed.

(** C7, amended.  For every snapshot within the valid ranges whose frame
    is emitted, the frame has 15 bytes that start with the sync byte, the
    decoder recovers every slot's [dx] and [dy] exactly, and the frame
    holds of the buttons the OR of the six masks and of the wheels their
    wraparound sum. *)
Theorem decode_recovers_motion (state : list slot) (pkt : list Z) :
  valid_snapshot state →
  make_packet state = Ok pkt →
  length pkt = 15%nat
  ∧ pkt !! 0%nat = Some SYNC
  ∧ decode_motion pkt = (λ s, (dx s, dy s)) <$> state
  ∧ pkt !! 13%nat = Some (button_field state)
  ∧ pkt !! 14%nat = Some (wrap8 (wheel_total state)).
Proof.
  intros [Hlen Hvalid] Hpkt.
  pose proof (decode_pairs_motion state Hvalid) as Hdec.
  pose proof (motion_bytes_length state) as Hmb.
  rewrite (make_packet_eq state Hlen) in Hpkt.
  destruct (Z.geb_spec (wheel_field state) 128) as [|Hw]; [done|].
  injection Hpkt as <-.
  assert (wrap8 (wheel_total state) = wheel_field state) as ->.
  { unfold wrap8, signed8. rewrite <- wheel_field_mod.
    destruct (Z.geb_spec (wheel_field state) 128); [lia|done]. }
  rewrite Hlen in Hmb. unfold decode_motion.
  change (drop 1 (SYNC :: ?l)) with l.
  rewrite take_app_length' by done.
  split; [cbn; rewrite length_app, Hmb; reflexivity|].
  split; [done|]. split; [done|].
  change ((?x :: ?l) !! 13%nat) with (l !! 12%nat).
  change ((?x :: ?l) !! 14%nat) with (l !! 13%nat).
  rewrite !lookup_app_r by lia. rewrite Hmb. done.
Qed.

Lemma decode_recovers_motion_witness :
  decode_motion [170; 3; 252; 0; 0; 0; 0; 0; 0; 0; 0; 0; 0; 1; 1]
  = [(3, -4); (0, 0); (0, 0); (0, 0); (0, 0); (0, 0)].
Proof.
  apply (decode_recovers_motion left_on_first
           [170; 3; 252; 0; 0; 0; 0; 0; 0; 0; 0; 0; 0; 1; 1]).
  - split; [reflexivity|repeat constructor; cbn; lia].
  - reflexivity.
Defined.

(** ** The synthetic source *)

Lemma six_rows (deltas : list (Z * Z)) :
  length deltas = 6%nat →
  ∃ d0 d1 d2 d3 d4 d5, deltas = [d0; d1; d2; d3; d4; d5].
Proof.
  intros H.
  do 6 (destruct deltas as [|? deltas]; [discriminate|]).
  destruct deltas; [|discriminate]. eauto 10.
Qed.

Lemma synthetic_packet_eq (deltas : list (Z * Z)) :
  length deltas = 6%nat →
  TestRandomMice.make_packet deltas =
    Ok (TestRandomMice.SYNC
          :: (d ← deltas; [Z.land (TestRandomMice.clamp_s8 (fst d)) 0xFF;
                           Z.land (TestRandomMice.clamp_s8 (snd d)) 0xFF])
          ++ [0; 0]).
Proof.
  intros H. destruct (six_rows deltas H) as (d0&d1&d2&d3&d4&d5&->).
  unfold TestRandomMice.make_packet.
  repeat frame_step. reflexivity.
Qed.

Lemma fill_ok (entropy : nat → Z) (mag : Z) (i k : nat)
    (deltas : list (Z * Z)) :
  (i < length deltas)%nat →
  ∃ deltas', TestRandomMice.fill entropy mag i (deltas, k)
             = Ok (deltas', S (S k))
             ∧ length deltas' = length deltas.
Proof.
  intros Hi. unfold TestRandomMice.fill, getitem, setitem. cbn [fst snd].
  destruct (lookup_lt_is_Some_2 deltas i Hi) as [d ->]. rewrite bind_Ok.
  apply Nat.ltb_lt in Hi as ->. rewrite bind_Ok.
  eexists. split; [reflexivity|]. apply length_insert.
Qed.

Lemma sample_ok (entropy : nat → Z) (a : TestRandomMice.args)
    (mag : Z) (k : nat) :
  TestRandomMice.check_single a = Ok () →
  ∃ deltas k', TestRandomMice.sample entropy (TestRandomMice.single a) mag k
               = Ok (deltas, k')
               ∧ length deltas = 6%nat.
Proof.
  unfold TestRandomMice.check_single, TestRandomMice.sample.
  destruct (TestRandomMice.single a) as [i|].
  - destruct (Z.ltb_spec i 0); [done|].
    destruct (Z.geb_spec i (Z.of_nat TestRandomMice.NUM_MICE_MAX)); [done|].
    intros _.
    destruct (fill_ok entropy mag (Z.to_nat i) k
                (replicate TestRandomMice.NUM_MICE_MAX (0, 0)))
      as (deltas'&H'&Hlen).
    + rewrite length_replicate. unfold TestRandomMice.NUM_MICE_MAX in *. lia.
    + exists deltas', (S (S k)). split; [exact H'|].
      now rewrite Hlen, length_replicate.
  - intros _. eexists _, _. split; reflexivity.
Qed.

Lemma frames_ok (entropy : nat → Z) (a : TestRandomMice.args)
    (mag : Z) (n k : nat) :
  TestRandomMice.check_single a = Ok () →
  ∃ fs, TestRandomMice.frames entropy (TestRandomMice.single a) mag n k
        = Ok fs
        ∧ length fs = n
        ∧ Forall (λ f, length f = 15%nat ∧ f !! 0%nat = Some 0xAA
                       ∧ f !! 13%nat = Some 0 ∧ f !! 14%nat = Some 0) fs.
Proof.
  intros Ha. revert k. induction n as [|n IH]; intros k.
  - exists []. repeat split. constructor.
  - destruct (sample_ok entropy a mag k Ha) as (deltas&k'&Hs&Hlen).
    destruct (IH k') as (fs&Hfs&Hn&Hall).
    cbn [TestRandomMice.frames]. rewrite Hs, bind_Ok. cbn [fst snd].
    rewrite (synthetic_packet_eq deltas Hlen), bind_Ok, Hfs, bind_Ok.
    eexists. split; [reflexivity|]. split; [cbn; congruence|].
    constructor; [|exact Hall].
    destruct (six_rows deltas Hlen) as (d0&d1&d2&d3&d4&d5&->).
    repeat split.
Qed.

(** C10.  Whenever [--single] passes the check of lines 67-69, in both
    modes and for every magnitude and every outcome of the random
    generator, each of the frames the Synthetic Source writes has 15 bytes
    with the sync byte [0xAA] at offset 0, 0 at offset 13 and 0 at offset
    14. *)
Theorem synthetic_frames_idle (entropy : nat → Z)
    (a : TestRandomMice.args) (n : nat) :
  TestRandomMice.check_single a = Ok () →
  ∃ fs, TestRandomMice.main entropy a n = Ok fs
        ∧ length fs = n
        ∧ Forall (λ f, length f = 15%nat ∧ f !! 0%nat = Some 0xAA
                       ∧ f !! 13%nat = Some 0 ∧ f !! 14%nat = Some 0) fs.
Proof.
  intros Ha. unfold TestRandomMice.main. rewrite Ha, bind_Ok.
  apply (frames_ok entropy a _ n 0 Ha).
Qed.

Lemma synthetic_frames_idle_witness :
  ∃ fs, TestRandomMice.main (λ k, Z.of_nat k * 7919)
          (TestRandomMice.Args (Some 2) 4) 2 = Ok fs
        ∧ length fs = 2%nat
        ∧ Forall (λ f, length f = 15%nat ∧ f !! 0%nat = Some 0xAA
                       ∧ f !! 13%nat = Some 0 ∧ f !! 14%nat = Some 0) fs.
Proof.
  apply (synthetic_frames_idle (λ k, Z.of_nat k * 7919)
           (TestRandomMice.Args (Some 2) 4) 2).
  reflexivity.
Defined.

(** ** The control frame *)

(** C3.  The record of six devices, xor, both, separate, amplify 2.5,
    quad_scale 4 and persist is encoded, from the command line through
    the mapping tables and by [build_packet] itself, as
    [55 CF 01 06 06 02 01 FA 04 00 01], the quad_scale 4 being the low
    byte 04 at offset 8 and the high byte 00 at offset 9. *)
Theorem example_control_frame (cfg : gmap string SendSettings.yaml_value) :
  SendSettings.main example_args cfg
    = Ok [0x55; 0xCF; 0x01; 0x06; 0x06; 0x02; 0x01; 0xFA; 0x04; 0x00; 0x01]
  ∧ SendSettings.LOGIC_MODES !! "xor"%string = Some 6
  ∧ SendSettings.INPUT_MODES !! "both"%string = Some 2
  ∧ SendSettings.OUTPUT_MODES !! "separate"%string = Some 1
  ∧ SendSettings.build_packet 6 6 2 1 two_and_a_half 4 true
    = Ok [0x55; 0xCF; 0x01; 0x06; 0x06; 0x02; 0x01; 0xFA; 0x04; 0x00; 0x01].
Proof. repeat split; vm_compute; reflexivity. Qed.

(** [quad_scale] below 65536 is the little-endian value of offsets 8-9. *)
Lemma quad_scale_little_endian (q : Z) :
  0 <= q < 65536 →
  Z.land q 0xFF + 256 * Z.land (Z.shiftr q 8) 0xFF = q.
Proof.
  intros Hq. rewrite !land_255_mod, Z.shiftr_div_pow2 by lia.
  change (2 ^ 8) with 256. Z.to_euclidean_division_equations. lia.
Qed.

Lemma clamp_max_min (r : Z) : Z.max 10 (Z.min 1000 r) = clamp r 10 1000.
Proof. unfold clamp. repeat case_match; lia. Qed.

(** C4, as the claim states it, fails: for [amplify = 12.0] the clamped
    [amplify_x100] is 1000, and the byte at offset 7 is 232. *)
Lemma amplify_byte_is_not_amplify_x100 :
  SendSettings.amplify_x100 twelve = Ok 1000
  ∧ ∃ pkt, SendSettings.build_packet 6 0 0 0 twelve 2 true = Ok pkt
           ∧ pkt !! 7%nat = Some 232
           ∧ pkt !! 7%nat ≠ Some 1000.
Proof.
  split; [reflexivity|]. eexists. split; [vm_compute; reflexivity|].
  split; [reflexivity|discriminate].
Qed.

(** C4, amended.  For every amplify factor whose hundredfold rounds to an
    integer [r], the encoder computes [amplify_x100 = clamp(r, 10, 1000)]
    and clamps nothing else: the frame has 11 bytes, the other fields are
    the low bytes of the arguments, and the byte at offset 7 is
    [amplify_x100] whenever [amplify_x100] is at most 255.  [12.0] gives
    [amplify_x100 = 1000] and [0.01] gives 10. *)
Theorem amplify_field (n l i o : Z) (amplify : spec_float) (q : Z)
    (save : bool) (r : Z) :
  py_round (SFmul prec emax amplify (float_lit 100)) = Ok r →
  SendSettings.amplify_x100 amplify = Ok (clamp r 10 1000)
  ∧ 10 <= clamp r 10 1000 <= 1000
  ∧ (∃ pkt, SendSettings.build_packet n l i o amplify q save = Ok pkt
      ∧ length pkt = 11%nat
      ∧ (clamp r 10 1000 <= 255 → pkt !! 7%nat = Some (clamp r 10 1000))
      ∧ pkt !! 3%nat = Some (n mod 256) ∧ pkt !! 4%nat = Some (l mod 256)
      ∧ pkt !! 5%nat = Some (i mod 256) ∧ pkt !! 6%nat = Some (o mod 256)
      ∧ pkt !! 8%nat = Some (q mod 256)
      ∧ pkt !! 9%nat = Some (q / 256 mod 256)
      ∧ pkt !! 10%nat = Some (if save then 1 else 0))
  ∧ SendSettings.amplify_x100 twelve = Ok 1000
  ∧ SendSettings.amplify_x100 hundredth = Ok 10.
Proof.
  intros Hr.
  assert (SendSettings.amplify_x100 amplify = Ok (clamp r 10 1000)) as Hx
    by (unfold SendSettings.amplify_x100; now rewrite Hr, bind_Ok, clamp_max_min).
  assert (10 <= clamp r 10 1000 <= 1000) as Hb
    by (unfold clamp; repeat case_match; lia).
  split; [exact Hx|]. split; [exact Hb|]. split; [|split; reflexivity].
  unfold SendSettings.build_packet. rewrite Hx, bind_Ok.
  unfold SendSettings.bytes.
  assert (is_byte (if save then 1 else 0) = true) as Hs by now destruct save.
  cbn [forallb]. rewrite !is_byte_land, Hs. cbn [andb].
  eexists. split; [reflexivity|]. split; [reflexivity|].
  cbn [lookup list_lookup].
  rewrite !land_255_mod, Z.shiftr_div_pow2 by lia.
  repeat split. intros Hle. f_equal. apply Z.mod_small. lia.
Qed.

Lemma amplify_field_witness :
  SendSettings.amplify_x100 two_and_a_half = Ok 250.
Proof.
  apply (amplify_field 6 6 2 1 two_and_a_half 4 true 250). reflexivity.
Defined.

(** ** Validation before the control frame is sent *)

Lemma bind_Raise {A B : Type} (e : exn) (f : A → res B) :
  Raise e ≫= f = Raise e.
Proof. reflexivity. Qed.

Lemma check_choice_invalid (table : gmap string Z) (name : string) :
  table !! name = None →
  SendSettings.check_choice table (Some name) = Raise (SystemExit 2).
Proof.
  intros H. unfold SendSettings.check_choice.
  destruct (decide (is_Some (table !! name))) as [[c Hc]|]; [congruence|done].
Qed.

Lemma parse_args_Ok (a a' : SendSettings.args) :
  SendSettings.parse_args a = Ok a' → a' = a.
Proof.
  unfold SendSettings.parse_args.
  repeat match goal with
    | |- ?m ≫= _ = _ → _ =>
        destruct m; [rewrite bind_Ok|now rewrite bind_Raise]
    end.
  congruence.
Qed.

Lemma check_choice_Raise (table : gmap string Z) (v : option string)
    (e : exn) :
  SendSettings.check_choice table v = Raise e → e = SystemExit 2.
Proof.
  unfold SendSettings.check_choice. repeat case_match; congruence.
Qed.

Lemma parse_args_invalid (a : SendSettings.args) :
  bad_choice a → SendSettings.parse_args a = Raise (SystemExit 2).
Proof.
  unfold SendSettings.parse_args.
  intros [(name&Hn&Ht)|[(name&Hn&Ht)|(name&Hn&Ht)]]; rewrite Hn;
    rewrite (check_choice_invalid _ _ Ht);
    repeat match goal with
      | |- ?m ≫= _ = _ =>
          let H := fresh in
          destruct m eqn:H;
          [rewrite bind_Ok
          |apply check_choice_Raise in H as ->; reflexivity]
      end; reflexivity.
Qed.

(** C8, as the claim states it, fails: with no option on the command line
    and a configuration file whose [logic_mode] is the unknown name
    [bogus], the control frame is sent, with logic mode 0. *)
Lemma unknown_name_in_file_is_sent :
  SendSettings.LOGIC_MODES !! SendSettings.lower "bogus" = None
  ∧ SendSettings.main no_args bogus_cfg
    = Ok [0x55; 0xCF; 0x01; 0x06; 0x00; 0x00; 0x00; 0x64; 0x02; 0x00; 0x01].
Proof. split; vm_compute; reflexivity. Qed.

Lemma build_packet_eq (n l i o : Z) (amplify : spec_float) (q : Z)
    (save : bool) :
  SendSettings.build_packet n l i o amplify q save
  = x ← SendSettings.amplify_x100 amplify;
    Ok [0x55; 0xCF; 0x01; n mod 256; l mod 256; i mod 256; o mod 256;
        x mod 256; q mod 256; q / 256 mod 256; if save then 1 else 0].
Proof.
  unfold SendSettings.build_packet.
  destruct (SendSettings.amplify_x100 amplify) as [x|]; [|reflexivity].
  rewrite !bind_Ok. unfold SendSettings.bytes.
  assert (is_byte (if save then 1 else 0) = true) as Hs by now destruct save.
  cbn [forallb]. rewrite !is_byte_land, Hs. cbn [andb].
  now rewrite !land_255_mod, Z.shiftr_div_pow2 by lia.
Qed.

(** The mode bytes of a frame that [main] sends are the codes it arrived
    at. *)
Lemma main_mode_bytes (argv : SendSettings.args)
    (cfg : gmap string SendSettings.yaml_value) (pkt : list Z) :
  SendSettings.main argv cfg = Ok pkt →
  ∃ l i o,
    match SendSettings.logic_mode argv with
    | Some name => SendSettings.table_get SendSettings.LOGIC_MODES name
    | None => Ok (SendSettings.mode_code SendSettings.LOGIC_MODES
                    (default (SendSettings.YStr "sum")
                       (cfg !! "logic_mode"%string)))
    end = Ok l
    ∧ match SendSettings.input_mode argv with
      | Some name => SendSettings.table_get SendSettings.INPUT_MODES name
      | None => Ok (SendSettings.mode_code SendSettings.INPUT_MODES
                      (default (SendSettings.YStr "uart")
                         (cfg !! "input_mode"%string)))
      end = Ok i
    ∧ match SendSettings.output_mode argv with
      | Some name => SendSettings.table_get SendSettings.OUTPUT_MODES name
      | None => Ok (SendSettings.mode_code SendSettings.OUTPUT_MODES
                      (default (SendSettings.YStr "combined")
                         (cfg !! "output_mode"%string)))
      end = Ok o
    ∧ pkt !! 4%nat = Some (l mod 256)
    ∧ pkt !! 5%nat = Some (i mod 256)
    ∧ pkt !! 6%nat = Some (o mod 256).
Proof.
  unfold SendSettings.main.
  destruct (SendSettings.parse_args argv) as [a|] eqn:Hp;
    [rewrite bind_Ok|done].
  apply parse_args_Ok in Hp as ->.
  destruct (match SendSettings.num_mice argv with
            | Some n => Ok n | None => _ end) as [n|];
    [rewrite bind_Ok|done].
  destruct (match SendSettings.logic_mode argv with
            | Some n => _ | None => _ end) as [l|];
    [rewrite bind_Ok|done].
  destruct (match SendSettings.input_mode argv with
            | Some n => _ | None => _ end) as [i|];
    [rewrite bind_Ok|done].
  destruct (match SendSettings.output_mode argv with
            | Some n => _ | None => _ end) as [o|];
    [rewrite bind_Ok|done].
  destruct (match SendSettings.amplify argv with
            | Some n => _ | None => _ end) as [amp|];
    [rewrite bind_Ok|done].
  destruct (match SendSettings.quad_scale argv with
            | Some n => Ok n | None => _ end) as [q|];
    [rewrite bind_Ok|done].
  destruct ((n <? 2) || (n >? 6)); [done|].
  rewrite build_packet_eq.
  destruct (SendSettings.amplify_x100 amp) as [x|]; [rewrite bind_Ok|done].
  intros [= <-]. exists l, i, o. repeat split.
Qed.

(** [main] reads the file only through [cfg.get] with these keys. *)
Ltac same_without key :=
  unfold SendSettings.main;
  destruct (SendSettings.parse_args _) as [a|] eqn:Hp; [|reflexivity];
  apply parse_args_Ok in Hp as ->; rewrite !bind_Ok;
  rewrite ?(lookup_delete_eq (M := gmap string)),
    ?(lookup_delete_ne (M := gmap string)) by discriminate.

(** C8, amended.  Whenever the number of mice [main] arrives at is outside
    [[2, 6]], or a mode name given on the command line is not a key of its
    table, [main] ends with an exception and nothing is written, and so
    it does when the configuration file cannot be loaded.  A mode name
    read from the configuration file that is not a key of its table is
    not a failure: [main] does exactly what it does when the file does not
    give that setting, and a frame that is sent carries the code 0 for
    it. *)
Theorem invalid_settings_send_nothing (argv : SendSettings.args)
    (cfg : gmap string SendSettings.yaml_value) :
  ((∃ n, resolved_num_mice argv cfg n ∧ (n < 2 ∨ 6 < n)) ∨ bad_choice argv →
   ∃ e, SendSettings.main argv cfg = Raise e)
  ∧ SendSettings.script argv (Ok cfg) = SendSettings.main argv cfg
  ∧ (∀ e, ∃ e', SendSettings.script argv (Raise e) = Raise e')
  ∧ (SendSettings.logic_mode argv = None →
     unknown_in_file SendSettings.LOGIC_MODES "logic_mode" cfg →
     SendSettings.main argv cfg
     = SendSettings.main argv (delete "logic_mode"%string cfg)
     ∧ ∀ pkt, SendSettings.main argv cfg = Ok pkt → pkt !! 4%nat = Some 0)
  ∧ (SendSettings.input_mode argv = None →
     unknown_in_file SendSettings.INPUT_MODES "input_mode" cfg →
     SendSettings.main argv cfg
     = SendSettings.main argv (delete "input_mode"%string cfg)
     ∧ ∀ pkt, SendSettings.main argv cfg = Ok pkt → pkt !! 5%nat = Some 0)
  ∧ (SendSettings.output_mode argv = None →
     unknown_in_file SendSettings.OUTPUT_MODES "output_mode" cfg →
     SendSettings.main argv cfg
     = SendSettings.main argv (delete "output_mode"%string cfg)
     ∧ ∀ pkt, SendSettings.main argv cfg = Ok pkt → pkt !! 6%nat = Some 0).
Proof.
  split; [|split; [|split; [|split; [|split]]]].
  - intros [(n&Hn&Hrange)|Hbad].
    + unfold SendSettings.main.
      destruct (SendSettings.parse_args argv) as [a|] eqn:Hp;
        [rewrite bind_Ok|rewrite bind_Raise; eauto].
      apply parse_args_Ok in Hp as ->.
      assert (match SendSettings.num_mice argv with
              | Some n => Ok n
              | None => SendSettings.py_int
                          (default (SendSettings.YInt 6)
                             (cfg !! "num_mice"%string))
              end = Ok n) as ->.
      { destruct Hn as [->|[-> ->]]; reflexivity. }
      rewrite bind_Ok.
      repeat match goal with
        | |- ∃ e, ?m ≫= _ = Raise e =>
            destruct m; [rewrite bind_Ok|rewrite bind_Raise; eauto]
        end.
      assert ((n <? 2) || (n >? 6) = true) as ->; [|eauto].
      destruct Hrange; [destruct (Z.ltb_spec n 2)|destruct (Z.gtb_spec n 6)];
        rewrite ?orb_true_r; try reflexivity; lia.
    + exists (SystemExit 2). unfold SendSettings.main.
      now rewrite (parse_args_invalid argv Hbad), bind_Raise.
  - unfold SendSettings.script, SendSettings.main.
    destruct (SendSettings.parse_args argv) as [a|]; reflexivity.
  - intros e. unfold SendSettings.script.
    destruct (SendSettings.parse_args argv) as [a|]; eauto.
  - intros Harg (name&Hfile&Hname). split.
    + same_without "logic_mode"%string.
      rewrite Harg, Hfile. cbn [default from_option id].
      assert (SendSettings.mode_code SendSettings.LOGIC_MODES
                (SendSettings.YStr name) = 0) as ->
        by (unfold SendSettings.mode_code; now rewrite Hname).
      reflexivity.
    + intros pkt Hpkt.
      destruct (main_mode_bytes _ _ _ Hpkt) as (l&i&o&Hl&_&_&->&_).
      rewrite Harg, Hfile in Hl. cbn [default from_option id] in Hl.
      unfold SendSettings.mode_code in Hl. rewrite Hname in Hl.
      now injection Hl as <-.
  - intros Harg (name&Hfile&Hname). split.
    + same_without "input_mode"%string.
      rewrite Harg, Hfile. cbn [default from_option id].
      assert (SendSettings.mode_code SendSettings.INPUT_MODES
                (SendSettings.YStr name) = 0) as ->
        by (unfold SendSettings.mode_code; now rewrite Hname).
      reflexivity.
    + intros pkt Hpkt.
      destruct (main_mode_bytes _ _ _ Hpkt) as (l&i&o&_&Hi&_&_&->&_).
      rewrite Harg, Hfile in Hi. cbn [default from_option id] in Hi.
      unfold SendSettings.mode_code in Hi. rewrite Hname in Hi.
      now injection Hi as <-.
  - intros Harg (name&Hfile&Hname). split.
    + same_without "output_mode"%string.
      rewrite Harg, Hfile. cbn [default from_option id].
      assert (SendSettings.mode_code SendSettings.OUTPUT_MODES
                (SendSettings.YStr name) = 0) as ->
        by (unfold SendSettings.mode_code; now rewrite Hname).
      reflexivity.
    + intros pkt Hpkt.
      destruct (main_mode_bytes _ _ _ Hpkt) as (l&i&o&_&_&Ho&_&_&->).
      rewrite Harg, Hfile in Ho. cbn [default from_option id] in Ho.
      unfold SendSettings.mode_code in Ho. rewrite Hname in Ho.
      now injection Ho as <-.
Qed.

Lemma invalid_settings_send_nothing_witness :
  (∃ e, SendSettings.main
          (SendSettings.Args (Some 7) None None None None None false) ∅
        = Raise e)
  ∧ SendSettings.main no_args bogus_cfg
    = SendSettings.main no_args (delete "logic_mode"%string bogus_cfg)
  ∧ ∀ pkt, SendSettings.main no_args bogus_cfg = Ok pkt →
           pkt !! 4%nat = Some 0.
Proof.
  split.
  - destruct (invalid_settings_send_nothing
                (SendSettings.Args (Some 7) None None None None None false)
                ∅) as [Hfail _].
    apply Hfail. left. exists 7. split; [left; reflexivity|lia].
  - destruct (invalid_settings_send_nothing no_args bogus_cfg)
      as (_&_&_&Hlogic&_).
    apply Hlogic; [reflexivity|].
    exists "bogus"%string. split; vm_compute; reflexivity.
Defined.

(** ** Cadence *)

Lemma pacing_lookup (start interval : Z) (laps : list TestRandomMice.lap)
    (packets n : nat) (now : Z) (p : TestRandomMice.pace) :
  TestRandomMice.pacing start interval packets now laps !! n = Some p →
  ∃ l, laps !! n = Some l
    ∧ TestRandomMice.next_until p
      = start + (Z.of_nat (packets + n) + 2) * interval
    ∧ TestRandomMice.sleep_time p
      = TestRandomMice.next_until p
        - (TestRandomMice.begun_at p + TestRandomMice.work l)
    ∧ ∀ p', TestRandomMice.pacing start interval packets now laps !! S n
            = Some p' →
        TestRandomMice.begun_at p'
        = if TestRandomMice.sleep_time p >? 0
          then TestRandomMice.next_until p + TestRandomMice.oversleep l
          else TestRandomMice.begun_at p + TestRandomMice.work l.
Proof.
  revert packets n now p.
  induction laps as [|l laps IH]; intros packets n now p; [done|].
  destruct n as [|n]; cbn -[Z.add Z.mul Z.sub Z.gtb Z.of_nat].
  - intros [= <-]. exists l. cbn -[Z.add Z.mul Z.sub Z.gtb Z.of_nat].
    split; [done|]. split; [lia|]. split; [lia|].
    intros p'. destruct laps as [|l' laps]; [done|].
    cbn -[Z.add Z.mul Z.sub Z.gtb Z.of_nat]. intros [= <-].
    cbn -[Z.add Z.mul Z.sub Z.gtb Z.of_nat]. case_match; lia.
  - intros Hp. destruct (IH _ _ _ _ Hp) as (l'&Hl&Hnext&Hsleep&Hbegin).
    exists l'. split; [done|]. split; [rewrite Hnext; lia|].
    split; [done|]. exact Hbegin.
Qed.

(** C9, as the claim states it, fails for the Aggregator Loop: when an
    event arrives one millisecond into each of two turns, both waits are
    called with the fixed timeout of 20 ms, the second not with the 39 ms
    that remain until [start + 2 * T], and both frames are written within
    the first period. *)
Lemma aggregator_wait_is_fixed :
  waits 0 early_events = [Wait 0 20000 1000; Wait 1000 20000 2000]
  ∧ ¬ (∀ start turns n w,
         waits start turns !! n = Some w →
         timeout w
         = start + (Z.of_nat n + 1) * SELECT_TIMEOUT - called_at w).
Proof.
  split; [reflexivity|]. intros H.
  specialize (H 0 early_events 1%nat (Wait 1000 20000 2000) eq_refl).
  vm_compute in H. discriminate H.
Qed.

Lemma waits_lookup (turns : list turn) (now : Z) (n : nat) (w : wait) :
  waits now turns !! n = Some w →
  timeout w = SELECT_TIMEOUT
  ∧ (∃ t, turns !! n = Some t
       ∧ written_at w
         = called_at w
           + match ready_after t with
             | Some r => Z.min r SELECT_TIMEOUT
             | None => SELECT_TIMEOUT
             end
           + handling t)
  ∧ ∀ w', waits now turns !! S n = Some w' → called_at w' = written_at w.
Proof.
  revert now n w. induction turns as [|t turns IH]; intros now n w; [done|].
  destruct n as [|n]; cbn [waits lookup list_lookup].
  - intros [= <-]. split; [reflexivity|]. split; [exists t; now split|].
    intros w'. destruct turns as [|t' turns]; [done|].
    cbn [waits lookup list_lookup]. now intros [= <-].
  - apply IH.
Qed.

(** C9, amended, with times taken as exact numbers of microseconds.  The
    Aggregator Loop keeps no deadline: every call of [select] has the
    fixed timeout of 20 ms, the frame is written as soon as [select]
    returns (when a device is readable, or at the timeout) and the events
    are handled, and the next call follows the write.  In the Synthetic
    Source, with laps that take non-negative time, the sleep after the
    write of frame [n] (the wait before frame [n + 1]) lasts the time that
    remains until the deadline [start + ((n + 1) + 1) * T], with [T] the
    fixed period; it is skipped when that time is not positive, the next
    iteration then beginning at once; when it is taken the next iteration
    begins at the deadline, later only by what [time.sleep] oversleeps,
    whatever the earlier laps were; so the next iteration never begins
    ahead of the deadline. *)
Theorem cadence_of_the_loops :
  (∀ (now : Z) (turns : list turn) (n : nat) (w : wait),
     waits now turns !! n = Some w →
     timeout w = SELECT_TIMEOUT
     ∧ (∃ t, turns !! n = Some t
          ∧ written_at w
            = called_at w
              + match ready_after t with
                | Some r => Z.min r SELECT_TIMEOUT
                | None => SELECT_TIMEOUT
                end
              + handling t)
     ∧ ∀ w', waits now turns !! S n = Some w' →
             called_at w' = written_at w)
  ∧ (∀ (start interval now : Z) (laps : list TestRandomMice.lap) (n : nat)
       (p p' : TestRandomMice.pace),
       Forall (λ l, 0 <= TestRandomMice.work l
                    ∧ 0 <= TestRandomMice.oversleep l) laps →
       TestRandomMice.pacing start interval 0 now laps !! n = Some p →
       TestRandomMice.pacing start interval 0 now laps !! S n = Some p' →
       ∃ l, laps !! n = Some l
         ∧ TestRandomMice.next_until p
           = start + (Z.of_nat n + 2) * interval
         ∧ TestRandomMice.sleep_time p
           = TestRandomMice.next_until p
             - (TestRandomMice.begun_at p + TestRandomMice.work l)
         ∧ TestRandomMice.next_until p <= TestRandomMice.begun_at p'
         ∧ (0 < TestRandomMice.sleep_time p →
            TestRandomMice.begun_at p'
            = TestRandomMice.next_until p + TestRandomMice.oversleep l)
         ∧ (TestRandomMice.sleep_time p <= 0 →
            TestRandomMice.begun_at p'
            = TestRandomMice.begun_at p + TestRandomMice.work l)).
Proof.
  split; [intros now turns n w; apply waits_lookup|].
  intros start interval now laps n p p' Hlaps Hp Hp'.
  destruct (pacing_lookup _ _ _ _ _ _ _ Hp) as (l&Hl&Hnext&Hsleep&Hbegin).
  exists l. split; [done|]. split; [exact Hnext|]. split; [exact Hsleep|].
  rewrite Forall_lookup in Hlaps. destruct (Hlaps n l Hl) as [Hw Ho].
  rewrite (Hbegin p' Hp').
  destruct (Z.gtb_spec (TestRandomMice.sleep_time p) 0);
    (split; [|split]); lia.
Qed.

Lemma cadence_of_the_loops_witness :
  (timeout (Wait 1000 20000 2000) = SELECT_TIMEOUT
   ∧ (∃ t, early_events !! 1%nat = Some t
        ∧ 2000 = 1000
                 + match ready_after t with
                   | Some r => Z.min r SELECT_TIMEOUT
                   | None => SELECT_TIMEOUT
                   end
                 + handling t)
   ∧ ∀ w', waits 0 early_events !! 2%nat = Some w' → called_at w' = 2000)
  ∧ ∃ l, late_then_short !! 0%nat = Some l
      ∧ 40000 = 0 + (Z.of_nat 0 + 2) * 20000
      ∧ -5000 = 40000 - (0 + TestRandomMice.work l)
      ∧ 40000 <= 45000
      ∧ (0 < -5000 → 45000 = 40000 + TestRandomMice.oversleep l)
      ∧ (-5000 <= 0 → 45000 = 0 + TestRandomMice.work l).
Proof.
  destruct cadence_of_the_loops as [Hwaits Hpacing]. split.
  - apply (Hwaits 0 early_events 1%nat (Wait 1000 20000 2000)). reflexivity.
  - apply (Hpacing 0 20000 0 late_then_short 0%nat
             (TestRandomMice.Pace 0 40000 (-5000))
             (TestRandomMice.Pace 45000 60000 14900)).
    + repeat constructor; cbn; lia.
    + reflexivity.
    + reflexivity.
Defined.

(** * Further properties of the scripts *)

(** ** Buttons *)

Lemma testbit_shiftl_1 (bit b : Z) :
  0 <= bit → Z.testbit (Z.shiftl 1 bit) b = (b =? bit).
Proof.
  intros Hbit. rewrite Z.shiftl_1_l, Z.pow2_bits_eqb by done.
  apply Z.eqb_sym.
Qed.

Lemma button_bit_range (code bit : Z) :
  button_bit code = Some bit → 0 <= bit < 3.
Proof. unfold button_bit. repeat case_match; intros [= <-]; lia. Qed.

(** A transition of one of the three buttons changes the bit of that
    button in the row of its device and nothing else: the bit is set when
    the event value is not zero and cleared when it is zero, the other
    bits of the mask and the three accumulators stay as they are. *)
Theorem key_event_sets_level (i : nat) (code value bit : Z)
    (state : list slot) (s : slot) :
  state !! i = Some s →
  button_bit code = Some bit →
  ∃ s', handle_event i (InputEvent EV_KEY code value) state
        = Ok (<[i := s']> state)
    ∧ dx s' = dx s ∧ dy s' = dy s ∧ wheel s' = wheel s
    ∧ ∀ b, 0 <= b →
        Z.testbit (btns s') b
        = if b =? bit then negb (value =? 0) else Z.testbit (btns s) b.
Proof.
  intros Hs Hbit. pose proof (button_bit_range _ _ Hbit) as Hr.
  unfold handle_event. cbn [ev_type ev_code ev_value].
  change (EV_KEY =? EV_REL) with false. change (EV_KEY =? EV_KEY) with true.
  cbn match. rewrite Hbit.
  destruct (value =? 0); rewrite (update_ok _ _ _ _ Hs);
    eexists; (split; [reflexivity|]); cbn [dx dy wheel btns];
    repeat split; intros b Hb.
  - rewrite Z.land_spec, Z.lnot_spec, testbit_shiftl_1 by lia.
    destruct (b =? bit); cbn; [apply andb_false_r|apply andb_true_r].
  - rewrite Z.lor_spec, testbit_shiftl_1 by lia.
    destruct (b =? bit); cbn; [apply orb_true_r|apply orb_false_r].
Qed.

Lemma key_event_sets_level_witness :
  ∃ s', handle_event 2 (InputEvent EV_KEY BTN_RIGHT 0) pressed
        = Ok (<[2%nat := s']> pressed)
    ∧ dx s' = 7 ∧ dy s' = -9 ∧ wheel s' = 3
    ∧ ∀ b, 0 <= b →
        Z.testbit (btns s') b
        = if b =? 1 then negb (0 =? 0) else Z.testbit 5 b.
Proof.
  apply (key_event_sets_level 2 BTN_RIGHT 0 1 pressed (Slot 7 (-9) 5 3));
    reflexivity.
Defined.

Lemma testbit_land_7 (x b : Z) :
  0 <= b → Z.testbit (Z.land x 0x07) b = (b <? 3) && Z.testbit x b.
Proof.
  intros Hb. rewrite Z.land_spec. change 0x07 with (Z.ones 3).
  rewrite Z.testbit_ones_nonneg by lia. apply andb_comm.
Qed.

Lemma button_fold_bits (l : list slot) (acc b : Z) :
  0 <= b →
  Z.testbit (foldl (λ b s, Z.lor b (Z.land (btns s) 0x07)) acc l) b
  = Z.testbit acc b || ((b <? 3) && existsb (λ s, Z.testbit (btns s) b) l).
Proof.
  intros Hb. revert acc. induction l as [|s l IH]; intros acc.
  - cbn. now rewrite andb_false_r, orb_false_r.
  - cbn [foldl existsb]. rewrite IH, Z.lor_spec, testbit_land_7 by done.
    destruct (Z.testbit acc b), (b <? 3), (Z.testbit (btns s) b); reflexivity.
Qed.

(** In every frame that is emitted, bit [b] of the byte at offset 13 is
    set exactly when [b] is one of the three button bits and some slot has
    that bit set in its mask: a button held on any mouse is visible, and
    bits above the third never reach the frame. *)
Theorem button_byte_is_or (state : list slot) (pkt : list Z) :
  length state = 6%nat →
  make_packet state = Ok pkt →
  ∃ v, pkt !! 13%nat = Some v
    ∧ ∀ b, 0 <= b →
        Z.testbit v b
        = (b <? 3) && existsb (λ s, Z.testbit (btns s) b) state.
Proof.
  intros Hlen Hpkt. rewrite (make_packet_eq state Hlen) in Hpkt.
  destruct (_ >=? 128); [done|]. injection Hpkt as <-.
  exists (button_field state). split.
  - destruct (six_slots state Hlen) as (s0&s1&s2&s3&s4&s5&->). reflexivity.
  - intros b Hb. unfold button_field. rewrite button_fold_bits by done.
    now rewrite Z.testbit_0_l.
Qed.

Lemma button_byte_is_or_witness :
  ∃ v, [170; 3; 252; 0; 0; 0; 0; 0; 0; 0; 0; 0; 0; 1; 1] !! 13%nat = Some v
    ∧ ∀ b, 0 <= b →
        Z.testbit v b
        = (b <? 3) && existsb (λ s, Z.testbit (btns s) b) left_on_first.
Proof.
  apply (button_byte_is_or left_on_first
           [170; 3; 252; 0; 0; 0; 0; 0; 0; 0; 0; 0; 0; 1; 1]); reflexivity.
Defined.

(** ** The loop body as a whole *)

Lemma pending_indices (reads : list (option (list input_event))) :
  Forall (λ je, (fst je < length reads)%nat) (pending reads).
Proof.
  apply Forall_forall. intros je Hje. unfold pending in Hje.
  apply list_elem_of_In, in_concat in Hje as (l&Hl&Hje).
  apply list_elem_of_In, elem_of_lookup_imap_1 in Hl as (i&r&->&Hr).
  apply list_elem_of_In in Hje. destruct r as [evs|].
  - apply list_elem_of_fmap in Hje as (e&->&_). cbn.
    eapply lookup_lt_Some, Hr.
  - now apply elem_of_nil in Hje.
Qed.

Lemma pending_idle (reads : list (option (list input_event))) :
  Forall (λ r, r = None ∨ r = Some []) reads → pending reads = [].
Proof.
  intros Hall. apply elem_of_nil_inv. intros je Hje. unfold pending in Hje.
  apply list_elem_of_In, in_concat in Hje as (l&Hl&Hje).
  apply list_elem_of_In, elem_of_lookup_imap_1 in Hl as (i&r&->&Hr).
  apply list_elem_of_In in Hje. rewrite Forall_lookup in Hall.
  destruct (Hall i r Hr) as [->| ->]; now apply elem_of_nil in Hje.
Qed.

Lemma at_rest_eta (s : slot) : at_rest s → s = Slot 0 0 (btns s) 0.
Proof. destruct s as [x y b w]. intros (Hx&Hy&Hw). cbn in *. now subst. Qed.

(** An iteration in which no device has anything to read, entered with
    the accumulators at rest, writes the sync byte, twelve zero motion
    bytes, the OR of the held buttons and a zero wheel byte, and leaves
    the state as it was. *)
Theorem idle_iteration (reads : list (option (list input_event)))
    (state : list slot) :
  length state = 6%nat →
  Forall at_rest state →
  Forall (λ r, r = None ∨ r = Some []) reads →
  loop_body reads state
  = Ok (SYNC :: replicate 12 0 ++ [button_field state; 0], state).
Proof.
  intros Hlen Hrest Hidle. unfold loop_body.
  rewrite (pending_idle reads Hidle), (tick_eq [] state state Hlen eq_refl).
  destruct (six_slots state Hlen) as (s0&s1&s2&s3&s4&s5&->).
  repeat match goal with
    | H : Forall at_rest (_ :: _) |- _ => apply Forall_cons in H as [? H]
    end.
  repeat match goal with
    | H : at_rest ?s |- _ => apply at_rest_eta in H; rewrite H; clear H
    end.
  reflexivity.
Qed.

Lemma idle_iteration_witness :
  loop_body [None; Some []; None; None; None; None]
    (<[2%nat := Slot 0 0 5 0]> initial_state)
  = Ok ([170; 0; 0; 0; 0; 0; 0; 0; 0; 0; 0; 0; 0; 5; 0],
        <[2%nat := Slot 0 0 5 0]> initial_state).
Proof.
  assert (Forall at_rest (<[2%nat := Slot 0 0 5 0]> initial_state)) as Hrest
    by repeat constructor.
  assert (Forall (λ r : option (list input_event), r = None ∨ r = Some [])
            [None; Some []; None; None; None; None]) as Hidle
    by (repeat constructor; auto).
  exact (idle_iteration [None; Some []; None; None; None; None]
           (<[2%nat := Slot 0 0 5 0]> initial_state) eq_refl Hrest Hidle).
Defined.

(** With six rows of state and at most six devices, one iteration either
    writes a frame of 15 bytes and leaves six rows, or fails with the
    [ValueError] of the wheel byte; it fails in no other way: events never
    address a row that does not exist, and motion and button bytes are
    always storable. *)
Theorem loop_body_outcomes
    (reads : list (option (list input_event))) (state : list slot) :
  length state = 6%nat →
  (length reads <= 6)%nat →
  loop_body reads state = Raise ValueError
  ∨ ∃ pkt state', loop_body reads state = Ok (pkt, state')
                  ∧ length pkt = 15%nat ∧ length state' = 6%nat.
Proof.
  intros Hlen Hreads. unfold loop_body.
  assert (Forall (λ je, (fst je < length state)%nat) (pending reads)) as Hidx.
  { eapply Forall_impl; [apply pending_indices|]. cbn. lia. }
  destruct (apply_events_ok _ _ Hidx) as (snap&Hev&Hsnap&_).
  rewrite (tick_eq _ _ _ Hlen Hev).
  destruct (_ >=? 128); [now left|]. right. eexists _, _.
  split; [reflexivity|].
  rewrite Hlen in Hsnap.
  destruct (six_slots snap Hsnap) as (s0&s1&s2&s3&s4&s5&->).
  split; reflexivity.
Qed.

Lemma loop_body_outcomes_witness :
  loop_body [Some [InputEvent EV_REL REL_X 300]; None] initial_state
    = Raise ValueError
  ∨ ∃ pkt state',
      loop_body [Some [InputEvent EV_REL REL_X 300]; None] initial_state
        = Ok (pkt, state')
      ∧ length pkt = 15%nat ∧ length state' = 6%nat.
Proof.
  apply (loop_body_outcomes [Some [InputEvent EV_REL REL_X 300]; None]
           initial_state); [reflexivity|cbn; lia].
Defined.

(** ** The frame encoder on any state *)

Lemma button_fold_bounds (l : list slot) (acc : Z) :
  0 <= acc < 8 →
  0 <= foldl (λ b s, Z.lor b (Z.land (btns s) 0x07)) acc l < 8.
Proof.
  revert acc. induction l as [|s l IH]; intros acc Hacc; [done|].
  cbn [foldl]. apply IH, button_step_bounds, Hacc.
Qed.

Lemma motion_bytes_range (state : list slot) :
  Forall (λ b, 0 <= b < 256) (motion_bytes state).
Proof.
  induction state as [|s l IH]; [constructor|].
  change (motion_bytes (s :: l))
    with (Z.land (dx s) 0xFF :: Z.land (dy s) 0xFF :: motion_bytes l).
  repeat constructor; try exact IH;
    rewrite land_255_mod; apply Z.mod_pos_bound; lia.
Qed.

(** Whatever the six rows hold, clamped or not, a frame that is emitted
    has 15 bytes, begins with [0xAA], holds only values that fit a byte,
    a button byte below 8 and a wheel byte below 128. *)
Theorem emitted_frame_is_well_formed (state : list slot) (pkt : list Z) :
  length state = 6%nat →
  make_packet state = Ok pkt →
  length pkt = 15%nat
  ∧ pkt !! 0%nat = Some 0xAA
  ∧ Forall (λ b, 0 <= b < 256) pkt
  ∧ (∃ v, pkt !! 13%nat = Some v ∧ 0 <= v < 8)
  ∧ (∃ w, pkt !! 14%nat = Some w ∧ 0 <= w < 128).
Proof.
  intros Hlen Hpkt. rewrite (make_packet_eq state Hlen) in Hpkt.
  destruct (Z.geb_spec (wheel_field state) 128) as [|Hw]; [done|].
  injection Hpkt as <-.
  pose proof (button_fold_bounds state 0 ltac:(lia)) as Hb.
  fold (button_field state) in Hb.
  assert (0 <= wheel_field state)
    by (rewrite wheel_field_mod; apply Z.mod_pos_bound; lia).
  pose proof (motion_bytes_range state) as Hm.
  pose proof (motion_bytes_length state) as Hl. rewrite Hlen in Hl.
  split; [cbn; rewrite length_app, Hl; reflexivity|].
  split; [reflexivity|].
  split.
  { constructor; [unfold SYNC; lia|]. apply Forall_app. split; [exact Hm|].
    repeat constructor; lia. }
  change ((?x :: ?l) !! 13%nat) with (l !! 12%nat).
  change ((?x :: ?l) !! 14%nat) with (l !! 13%nat).
  rewrite !lookup_app_r by lia. rewrite Hl.
  split; eexists; (split; [reflexivity|lia]).
Qed.

Lemma emitted_frame_is_well_formed_witness :
  length [170; 44; 255; 0; 0; 0; 0; 0; 0; 0; 0; 0; 0; 1; 127] = 15%nat
  ∧ [170; 44; 255; 0; 0; 0; 0; 0; 0; 0; 0; 0; 0; 1; 127] !! 0%nat = Some 0xAA
  ∧ Forall (λ b, 0 <= b < 256)
      [170; 44; 255; 0; 0; 0; 0; 0; 0; 0; 0; 0; 0; 1; 127]
  ∧ (∃ v, [170; 44; 255; 0; 0; 0; 0; 0; 0; 0; 0; 0; 0; 1; 127] !! 13%nat
          = Some v ∧ 0 <= v < 8)
  ∧ (∃ w, [170; 44; 255; 0; 0; 0; 0; 0; 0; 0; 0; 0; 0; 1; 127] !! 14%nat
          = Some w ∧ 0 <= w < 128).
Proof.
  apply (emitted_frame_is_well_formed
           (<[0%nat := Slot 300 (-1) 9 500]> initial_state)); reflexivity.
Defined.

(** A state with fewer than six rows makes the encoder raise
    [IndexError]. *)
Theorem short_state_raises (state : list slot) :
  (length state < 6)%nat → make_packet state = Raise IndexError.
Proof.
  intros H.
  do 6 (destruct state as [|? state];
        [unfold make_packet; repeat frame_step; reflexivity|]).
  cbn in H. lia.
Qed.

Lemma short_state_raises_witness :
  make_packet (take 5 initial_state) = Raise IndexError.
Proof. apply (short_state_raises (take 5 initial_state)). cbn. lia. Defined.

(** ** Finding the mice *)

Lemma find_mice_loop_take (limit : nat) (nodes devices : list node) :
  (length devices < Nat.max 1 limit)%nat →
  find_mice_loop limit nodes devices
  = take (Nat.max 1 limit)
      (devices ++ filter (λ nd, qualifies nd = true) nodes).
Proof.
  revert devices. induction nodes as [|nd nodes IH]; intros devices Hlen.
  - cbn. rewrite app_nil_r. symmetry. apply take_ge. lia.
  - cbn [find_mice_loop].
    assert (qualifies nd = false →
            filter (λ nd, qualifies nd = true) (nd :: nodes)
            = filter (λ nd, qualifies nd = true) nodes) as Hskip.
    { intros Hq. rewrite filter_cons_False; [done|congruence]. }
    destruct (node_caps nd) as [caps|] eqn:Hcaps;
      [destruct (is_mouse caps) eqn:Hm|].
    + assert (qualifies nd = true) as Hq
        by (unfold qualifies; now rewrite Hcaps).
      rewrite filter_cons_True by exact Hq.
      replace (devices ++ nd :: filter (λ nd, qualifies nd = true) nodes)
        with ((devices ++ [nd])
                ++ filter (λ nd, qualifies nd = true) nodes)
        by now rewrite <- app_assoc.
      cbn zeta. rewrite length_app. cbn [length].
      destruct (Nat.leb_spec limit (length devices + 1)) as [Hle|Hgt].
      * symmetry. apply take_app_length'. rewrite length_app. cbn. lia.
      * apply IH. rewrite length_app. cbn. lia.
    + rewrite Hskip by (unfold qualifies; now rewrite Hcaps). now apply IH.
    + rewrite Hskip by (unfold qualifies; now rewrite Hcaps). now apply IH.
Qed.

(** [find_mice(limit)] returns, in listing order, the first [limit] paths
    that open and report relative X and Y axes together with keys; paths
    that fail to open are skipped.  The limit is tested after a device is
    appended, so a limit of zero still returns the first mouse. *)
Theorem find_mice_takes_first (limit : nat) (nodes : list node) :
  find_mice limit nodes
  = take (Nat.max 1 limit) (filter (λ nd, qualifies nd = true) nodes).
Proof. apply (find_mice_loop_take limit nodes []). cbn. lia. Qed.

Lemma omap_id_padded (l : list node) (n : nat) :
  omap id ((Some <$> l) ++ replicate n None) = l.
Proof.
  rewrite omap_app.
  assert (omap id (replicate n (@None node)) = []) as ->
    by (induction n; [done|now cbn]).
  rewrite app_nil_r. induction l as [|x l IH]; [done|]. cbn. now rewrite IH.
Qed.

(** The list [mice] of [main] always has six entries: entry [i] is the
    [i]-th mouse of the listing, or [None] when the listing has no more
    than [i] mice; and [main] exits with status 1, before the loop, exactly
    when the listing has no mouse at all. *)
Theorem open_mice_pads_to_six (nodes : list node) :
  let found := filter (λ nd, qualifies nd = true) nodes in
  (found = [] → open_mice nodes = Raise (SystemExit 1))
  ∧ (found ≠ [] →
     ∃ mice, open_mice nodes = Ok mice
       ∧ length mice = 6%nat
       ∧ ∀ i, (i < 6)%nat → mice !! i = Some (found !! i)).
Proof.
  intros found. unfold open_mice.
  rewrite omap_id_padded. unfold find_mice.
  rewrite find_mice_loop_take by (cbn; lia).
  change ([] ++ ?l) with l. fold found.
  change (Nat.max 1 NUM_MICE_MAX) with 6%nat.
  change NUM_MICE_MAX with 6%nat.
  split.
  - intros ->. reflexivity.
  - intros Hne. destruct (take 6 found) as [|nd rest] eqn:Htake.
    { destruct found; [done|discriminate]. }
    rewrite <- Htake. clear nd rest Htake. eexists. split; [reflexivity|].
    assert (length (take 6 found) <= 6)%nat as Hle
      by (rewrite length_take; lia).
    split.
    + rewrite length_app, length_replicate, !length_fmap. lia.
    + intros i Hi. rewrite length_fmap.
      destruct (found !! i) as [nd|] eqn:Hfi.
      * rewrite lookup_app_l
          by (rewrite length_fmap, length_take;
              apply lookup_lt_Some in Hfi; lia).
        now rewrite list_lookup_fmap, lookup_take_lt, Hfi by done.
      * apply lookup_ge_None in Hfi.
        rewrite lookup_app_r by (rewrite length_fmap, length_take; lia).
        apply lookup_replicate_2.
        rewrite length_fmap, length_take. lia.
Qed.

Lemma open_mice_pads_to_six_witness :
  ∃ mice, open_mice listing = Ok mice
    ∧ length mice = 6%nat
    ∧ ∀ i, (i < 6)%nat →
        mice !! i
        = Some ([Node "event2" (Some mouse_caps);
                 Node "event3" (Some mouse_caps)] !! i).
Proof.
  apply (open_mice_pads_to_six listing). discriminate.
Defined.

(** ** The cadence of the aggregator loop *)

(** When no device becomes readable, the loop does not keep a 20 ms
    period: turn [n] calls [select] at the entry time plus [n] timeouts
    plus all the handling time spent so far, so every bit of handling time
    delays all later frames. *)
Theorem quiet_turns_drift (turns : list turn) (now : Z) (n : nat) (w : wait) :
  Forall (λ t, ready_after t = None) turns →
  waits now turns !! n = Some w →
  called_at w
  = now + Z.of_nat n * SELECT_TIMEOUT + total (handling <$> take n turns)
  ∧ written_at w
    = now + Z.of_nat (S n) * SELECT_TIMEOUT
      + total (handling <$> take (S n) turns).
Proof.
  intros Hquiet. revert now n w.
  induction Hquiet as [|t turns Ht _ IH]; intros now n w; [done|].
  destruct n as [|n]; cbn [waits lookup list_lookup].
  - intros [= <-]. rewrite Ht. cbn -[Z.add Z.mul SELECT_TIMEOUT].
    rewrite take_0. cbn -[Z.add Z.mul SELECT_TIMEOUT]. lia.
  - intros Hw. destruct (IH _ _ _ Hw) as [Hc Hwr]. rewrite Hc, Hwr, Ht.
    cbn [take firstn]. rewrite !fmap_cons.
    change (total (?x :: ?l)) with (x + total l).
    lia.
Qed.

Lemma quiet_turns_drift_witness :
  22020 = 0 + Z.of_nat 1 * SELECT_TIMEOUT
          + total (handling <$> take 1 [Turn None 2020; Turn None 30])
  ∧ 42050 = 0 + Z.of_nat 2 * SELECT_TIMEOUT
            + total (handling <$> take 2 [Turn None 2020; Turn None 30]).
Proof.
  apply (quiet_turns_drift [Turn None 2020; Turn None 30] 0 1
           (Wait 22020 20000 42050)).
  - repeat constructor.
  - reflexivity.
Defined.

(** ** What the synthetic source puts in its frames *)

Lemma randint_range (lo hi raw : Z) :
  lo <= hi → lo <= TestRandomMice.randint lo hi raw <= hi.
Proof.
  intros H. unfold TestRandomMice.randint.
  pose proof (Z.mod_pos_bound raw (hi - lo + 1)). lia.
Qed.

Lemma sample_spec (entropy : nat → Z) (a : TestRandomMice.args)
    (mag : Z) (k : nat) :
  TestRandomMice.check_single a = Ok () →
  0 <= mag →
  ∃ deltas k',
    TestRandomMice.sample entropy (TestRandomMice.single a) mag k
      = Ok (deltas, k')
    ∧ length deltas = 6%nat
    ∧ Forall (λ d, - mag <= fst d <= mag ∧ - mag <= snd d <= mag) deltas
    ∧ ∀ i j, TestRandomMice.single a = Some i → j ≠ Z.to_nat i →
             (j < 6)%nat → deltas !! j = Some (0, 0).
Proof.
  unfold TestRandomMice.check_single, TestRandomMice.sample.
  intros Hcheck Hmag.
  assert (∀ r, - mag <= TestRandomMice.randint (- mag) mag r <= mag) as Hr
    by (intros r; apply randint_range; lia).
  destruct (TestRandomMice.single a) as [i|].
  - destruct (Z.ltb_spec i 0); [done|].
    destruct (Z.geb_spec i (Z.of_nat TestRandomMice.NUM_MICE_MAX)); [done|].
    unfold TestRandomMice.NUM_MICE_MAX in *.
    assert (Z.to_nat i < 6)%nat as Hi by lia.
    unfold TestRandomMice.fill, getitem, setitem. cbn [fst snd].
    rewrite lookup_replicate_2 by done. rewrite bind_Ok, length_replicate.
    apply Nat.ltb_lt in Hi as Hi'. rewrite Hi', bind_Ok.
    eexists _, _. split; [reflexivity|].
    split; [now rewrite length_insert, length_replicate|]. split.
    + apply Forall_insert; [apply Forall_replicate; cbn; lia|]. cbn. auto.
    + intros i' j [= <-] Hne Hj.
      rewrite list_lookup_insert_ne by done. now apply lookup_replicate_2.
  - eexists _, _. split; [reflexivity|]. split; [reflexivity|]. split.
    + repeat constructor; cbn; apply Hr.
    + discriminate.
Qed.

Lemma frames_Forall (entropy : nat → Z) (single : option Z) (mag : Z)
    (Q : list Z → Prop) :
  (∀ k deltas k' pkt,
     TestRandomMice.sample entropy single mag k = Ok (deltas, k') →
     TestRandomMice.make_packet deltas = Ok pkt → Q pkt) →
  ∀ n k fs, TestRandomMice.frames entropy single mag n k = Ok fs →
            Forall Q fs.
Proof.
  intros HQ. induction n as [|n IH]; intros k fs.
  - intros [= <-]. constructor.
  - cbn [TestRandomMice.frames].
    destruct (TestRandomMice.sample entropy single mag k)
      as [[deltas k']|] eqn:Hs; [rewrite bind_Ok|done]. cbn [fst snd].
    destruct (TestRandomMice.make_packet deltas) as [pkt|] eqn:Hp;
      [rewrite bind_Ok|done].
    destruct (TestRandomMice.frames entropy single mag n k') as [rest|] eqn:Hf;
      [rewrite bind_Ok|done].
    intros [= <-]. constructor; [eapply HQ; eassumption|eapply IH, Hf].
Qed.

Lemma pair_bytes_lookup {A : Type} (f g : A → Z) (l : list A) (j : nat)
    (x : A) :
  l !! j = Some x →
  (d ← l; [f d; g d]) !! (j * 2)%nat = Some (f x)
  ∧ (d ← l; [f d; g d]) !! (1 + j * 2)%nat = Some (g x).
Proof.
  revert j. induction l as [|y l IH]; intros j Hj; [done|].
  destruct j as [|j]; cbn in Hj.
  - now injection Hj as ->.
  - apply (IH j Hj).
Qed.

Lemma mag_range (magnitude : Z) :
  1 <= Z.max 1 (Z.min 127 magnitude) <= 127.
Proof. lia. Qed.

(** With [--single i], every frame written has zero motion bytes for all
    the slots other than [i], whatever the magnitude and the random
    draws. *)
Theorem single_mode_moves_one_slot (entropy : nat → Z)
    (a : TestRandomMice.args) (i : Z) (n : nat) (fs : list (list Z)) :
  TestRandomMice.single a = Some i →
  TestRandomMice.main entropy a n = Ok fs →
  0 <= i < 6
  ∧ Forall (λ f, ∀ j, (j < 6)%nat → j ≠ Z.to_nat i →
                      f !! (1 + j * 2)%nat = Some 0
                      ∧ f !! (2 + j * 2)%nat = Some 0) fs.
Proof.
  intros Hsingle. unfold TestRandomMice.main.
  destruct (TestRandomMice.check_single a) as [[]|] eqn:Hcheck;
    [rewrite bind_Ok|done].
  intros Hfs. split.
  { unfold TestRandomMice.check_single in Hcheck. rewrite Hsingle in Hcheck.
    unfold TestRandomMice.NUM_MICE_MAX in Hcheck.
    destruct (Z.ltb_spec i 0); [done|].
    destruct (Z.geb_spec i (Z.of_nat 6)); [done|]. lia. }
  pose proof (mag_range (TestRandomMice.magnitude a)) as Hmag.
  eapply frames_Forall; [|exact Hfs].
  intros k deltas k' pkt Hs Hp j Hj Hne.
  destruct (sample_spec entropy a
              (Z.max 1 (Z.min 127 (TestRandomMice.magnitude a))) k Hcheck
              ltac:(lia))
    as (deltas'&k''&Hs'&Hlen&_&Hzero).
  rewrite Hs in Hs'. injection Hs' as <- <-.
  rewrite (synthetic_packet_eq deltas Hlen) in Hp. injection Hp as <-.
  destruct (pair_bytes_lookup
              (λ d, Z.land (TestRandomMice.clamp_s8 (fst d)) 0xFF)
              (λ d, Z.land (TestRandomMice.clamp_s8 (snd d)) 0xFF)
              deltas j (0, 0) (Hzero i j Hsingle Hne Hj)) as [Hx Hy].
  change (2 + j * 2)%nat with (S (1 + j * 2)).
  change (1 + j * 2)%nat with (S (j * 2)).
  cbn [lookup list_lookup].
  split; apply lookup_app_l_Some; [exact Hx|exact Hy].
Qed.

Lemma single_mode_moves_one_slot_witness :
  0 <= 2 < 6
  ∧ Forall (λ f, ∀ j, (j < 6)%nat → j ≠ Z.to_nat 2 →
                      f !! (1 + j * 2)%nat = Some 0
                      ∧ f !! (2 + j * 2)%nat = Some 0)
      [[170; 0; 0; 0; 0; 252; 4; 0; 0; 0; 0; 0; 0; 0; 0];
       [170; 0; 0; 0; 0; 3; 2; 0; 0; 0; 0; 0; 0; 0; 0]].
Proof.
  apply (single_mode_moves_one_slot (λ k, Z.of_nat k * 7919)
           (TestRandomMice.Args (Some 2) 4) 2 2); reflexivity.
Defined.

Lemma clamp_s8_id (x : Z) : -128 <= x <= 127 → TestRandomMice.clamp_s8 x = x.
Proof. unfold TestRandomMice.clamp_s8. lia. Qed.

Lemma decode_pairs_deltas (deltas : list (Z * Z)) :
  Forall (λ d, -128 <= fst d <= 127 ∧ -128 <= snd d <= 127) deltas →
  decode_pairs (d ← deltas;
                [Z.land (TestRandomMice.clamp_s8 (fst d)) 0xFF;
                 Z.land (TestRandomMice.clamp_s8 (snd d)) 0xFF])
  = deltas.
Proof.
  induction 1 as [|[x y] l [Hx Hy] _ IH]; [done|]. cbn [fst snd] in *.
  change (decode_pairs
            (Z.land (TestRandomMice.clamp_s8 x) 0xFF
             :: Z.land (TestRandomMice.clamp_s8 y) 0xFF
             :: (d ← l; [Z.land (TestRandomMice.clamp_s8 (fst d)) 0xFF;
                         Z.land (TestRandomMice.clamp_s8 (snd d)) 0xFF]))
          = (x, y) :: l).
  cbn [decode_pairs].
  now rewrite !clamp_s8_id, !signed8_land, IH by done.
Qed.

(** In both modes, every frame written reads back, as six pairs of signed
    bytes, as motion within the magnitude [max(1, min(127, magnitude))] on
    each axis: the clamp to a signed byte in the encoder never alters a
    generated delta. *)
Theorem synthetic_motion_within_magnitude (entropy : nat → Z)
    (a : TestRandomMice.args) (n : nat) (fs : list (list Z)) :
  TestRandomMice.main entropy a n = Ok fs →
  let mag := Z.max 1 (Z.min 127 (TestRandomMice.magnitude a)) in
  Forall (λ f, length (decode_motion f) = 6%nat
               ∧ Forall (λ d, - mag <= fst d <= mag ∧ - mag <= snd d <= mag)
                   (decode_motion f)) fs.
Proof.
  unfold TestRandomMice.main.
  destruct (TestRandomMice.check_single a) as [[]|] eqn:Hcheck;
    [rewrite bind_Ok|done].
  intros Hfs. cbv zeta.
  pose proof (mag_range (TestRandomMice.magnitude a)) as Hmag.
  set (mag := Z.max 1 (Z.min 127 (TestRandomMice.magnitude a))) in *.
  eapply frames_Forall; [|exact Hfs].
  intros k deltas k' pkt Hs Hp.
  destruct (sample_spec entropy a mag k Hcheck ltac:(lia))
    as (deltas'&k''&Hs'&Hlen&Hrange&_).
  rewrite Hs in Hs'. injection Hs' as <- <-.
  rewrite (synthetic_packet_eq deltas Hlen) in Hp. injection Hp as <-.
  assert (decode_motion
            (TestRandomMice.SYNC
             :: (d ← deltas;
                 [Z.land (TestRandomMice.clamp_s8 (fst d)) 0xFF;
                  Z.land (TestRandomMice.clamp_s8 (snd d)) 0xFF])
             ++ [0; 0]) = deltas) as ->; [|done].
  unfold decode_motion. change (drop 1 (?x :: ?l)) with l.
  rewrite take_app_length'.
  - apply decode_pairs_deltas. eapply Forall_impl; [exact Hrange|].
    cbn. lia.
  - destruct (six_rows deltas Hlen) as (d0&d1&d2&d3&d4&d5&->). reflexivity.
Qed.

Lemma synthetic_motion_within_magnitude_witness :
  Forall (λ f, length (decode_motion f) = 6%nat
               ∧ Forall (λ d, - 4 <= fst d <= 4 ∧ - 4 <= snd d <= 4)
                   (decode_motion f))
    [[170; 0; 0; 0; 0; 252; 4; 0; 0; 0; 0; 0; 0; 0; 0];
     [170; 0; 0; 0; 0; 3; 2; 0; 0; 0; 0; 0; 0; 0; 0]].
Proof.
  apply (synthetic_motion_within_magnitude (λ k, Z.of_nat k * 7919)
           (TestRandomMice.Args (Some 2) 4) 2). reflexivity.
Defined.

(** The synthetic source reaches its loop exactly when [--single] is
    absent or one of 0..5, a port that is not empty is given (by [--port],
    else positionally) and [--rate] is not zero.  Otherwise it stops before
    any frame: with exit status 1 for [--single], else with exit status 2
    for the port, else with [ZeroDivisionError] for the rate.  When the
    loop is reached, each of its iterations writes a frame. *)
Theorem synthetic_source_start_up (entropy : nat → Z)
    (o : TestRandomMice.options) (n : nat) :
  let bad_single :=
    match TestRandomMice.single (TestRandomMice.opt_args o) with
    | Some i => (i <? 0) || (5 <? i)
    | None => false
    end in
  let no_port :=
    match TestRandomMice.opt_port_opt o, TestRandomMice.opt_port o with
    | Some (String _ _), _ => false
    | _, Some (String _ _) => false
    | _, _ => true
    end in
  let zero_rate :=
    match TestRandomMice.opt_rate o with
    | S754_zero _ => true
    | _ => false
    end in
  if bad_single then
    TestRandomMice.script entropy o n = Raise (SystemExit 1)
  else if no_port then
    TestRandomMice.script entropy o n = Raise (SystemExit 2)
  else if zero_rate then
    TestRandomMice.script entropy o n = Raise ZeroDivisionError
  else
    ∃ fs, TestRandomMice.script entropy o n = Ok fs ∧ length fs = n.
Proof.
  destruct o as [port port_opt rate a]. cbn zeta.
  unfold TestRandomMice.script, TestRandomMice.start_up,
    TestRandomMice.chosen_port.
  cbn [TestRandomMice.opt_args TestRandomMice.opt_port
         TestRandomMice.opt_port_opt TestRandomMice.opt_rate].
  assert (TestRandomMice.check_single a
          = if match TestRandomMice.single a with
               | Some i => (i <? 0) || (5 <? i)
               | None => false
               end
            then Raise (SystemExit 1) else Ok ()) as Hcheck.
  { unfold TestRandomMice.check_single, TestRandomMice.NUM_MICE_MAX.
    destruct (TestRandomMice.single a) as [i|]; [|reflexivity].
    destruct (Z.ltb_spec i 0); [reflexivity|]. cbn [orb].
    destruct (Z.ltb_spec 5 i), (Z.geb_spec i (Z.of_nat 6));
      try reflexivity; lia. }
  rewrite Hcheck.
  destruct (match TestRandomMice.single a with
            | Some i => (i <? 0) || (5 <? i)
            | None => false
            end) eqn:Hbad; [reflexivity|].
  rewrite bind_Ok.
  assert (∃ fs, TestRandomMice.main entropy a n = Ok fs ∧ length fs = n)
    as (fs&Hfs&Hn).
  { unfold TestRandomMice.main. rewrite Hcheck, bind_Ok.
    destruct (frames_ok entropy a
                (Z.max 1 (Z.min 127 (TestRandomMice.magnitude a))) n 0
                Hcheck) as (fs&Hfs&Hn&_). eauto. }
  assert (∀ (B : Type) (c : ascii) (s : string) (k : string → res B),
            (if decide (String c s = EmptyString)
             then Raise (SystemExit 2) else Ok (String c s)) ≫= k
            = k (String c s)) as Hport
    by (intros B c s k; now rewrite decide_False by discriminate).
  assert (∀ p : string,
            (py_truediv (float_lit 1) rate
             ≫= (λ interval : spec_float, Ok (p, interval)))
            ≫= (λ _ : string * spec_float, TestRandomMice.main entropy a n)
            = if match rate with S754_zero _ => true | _ => false end
              then Raise ZeroDivisionError else Ok fs) as Hrate.
  { intros p. unfold py_truediv.
    destruct rate; rewrite ?bind_Raise, ?bind_Ok; done. }
  destruct port_opt as [[|c s]|], port as [[|c' s']|];
    rewrite ?decide_True, ?decide_False by (reflexivity || discriminate);
    rewrite ?bind_Raise, ?Hport, ?bind_Ok;
    lazymatch goal with
    | |- Raise _ = Raise _ => reflexivity
    | |- _ => rewrite !Hrate; destruct rate; eauto
    end.
Qed.

(** ** The cadence of the synthetic source *)

(** When every iteration takes less than a period and [time.sleep]
    returns on time, the first frame is written at [start] and frame [n],
    for [n] at least 1, at [start + (n + 1) * T]: the frames after the
    first are exactly one period apart, and the first gap is two
    periods. *)
Theorem steady_cadence (start interval : Z) (laps : list TestRandomMice.lap)
    (n : nat) (p : TestRandomMice.pace) :
  Forall (λ l, 0 <= TestRandomMice.work l < interval
               ∧ TestRandomMice.oversleep l = 0) laps →
  TestRandomMice.pacing start interval 0 start laps !! n = Some p →
  TestRandomMice.begun_at p
  = match n with
    | O => start
    | S _ => start + (Z.of_nat n + 1) * interval
    end.
Proof.
  intros Hlaps. revert p. induction n as [|n IH]; intros p' Hp'.
  - destruct laps; [done|]. cbn in Hp'. now injection Hp' as <-.
  - assert (is_Some (TestRandomMice.pacing start interval 0 start laps !! n))
      as [p Hp].
    { apply lookup_lt_is_Some. apply lookup_lt_Some in Hp'. lia. }
    specialize (IH p Hp).
    destruct (pacing_lookup _ _ _ _ _ _ _ Hp) as (l&Hl&Hnext&Hsleep&Hstep).
    rewrite Forall_lookup in Hlaps. destruct (Hlaps n l Hl) as [Hw Ho].
    rewrite (Hstep p' Hp'), Ho, Hnext.
    destruct (Z.gtb_spec (TestRandomMice.sleep_time p) 0) as [|Hle]; [lia|].
    exfalso. rewrite Hsleep, Hnext, IH in Hle. destruct n; lia.
Qed.

Lemma steady_cadence_witness :
  60000 = 0 + (Z.of_nat 2 + 1) * 20000.
Proof.
  apply (steady_cadence 0 20000
           [TestRandomMice.Lap 150 0; TestRandomMice.Lap 90 0;
            TestRandomMice.Lap 120 0] 2
           (TestRandomMice.Pace 60000 80000 19880)).
  - repeat constructor; cbn; lia.
  - reflexivity.
Defined.

(** ** The control frame that is sent *)

Lemma table_entry (l : list (string * Z)) (name : string) (c : Z) :
  (list_to_map l : gmap string Z) !! name = Some c → (name, c) ∈ l.
Proof. apply elem_of_list_to_map_2. Qed.

Ltac table_cases H :=
  apply table_entry in H;
  repeat (apply elem_of_cons in H as [H|H]; [simplify_eq|]);
  try (now apply elem_of_nil in H).

Lemma logic_code_range (name : string) (c : Z) :
  SendSettings.LOGIC_MODES !! name = Some c → 0 <= c <= 9.
Proof. intros H. table_cases H; lia. Qed.

Lemma input_code_range (name : string) (c : Z) :
  SendSettings.INPUT_MODES !! name = Some c → 0 <= c <= 2.
Proof. intros H. table_cases H; lia. Qed.

Lemma output_code_range (name : string) (c : Z) :
  SendSettings.OUTPUT_MODES !! name = Some c → 0 <= c <= 1.
Proof. intros H. table_cases H; lia. Qed.

(** No two names of a mode table share a wire code, and the codes are
    0..9 for the logic modes, 0..2 for the input modes and 0..1 for the
    output modes. *)
Theorem mode_codes_are_distinct (name1 name2 : string) (c : Z) :
  (SendSettings.LOGIC_MODES !! name1 = Some c →
   0 <= c <= 9
   ∧ (SendSettings.LOGIC_MODES !! name2 = Some c → name1 = name2))
  ∧ (SendSettings.INPUT_MODES !! name1 = Some c →
     0 <= c <= 2
     ∧ (SendSettings.INPUT_MODES !! name2 = Some c → name1 = name2))
  ∧ (SendSettings.OUTPUT_MODES !! name1 = Some c →
     0 <= c <= 1
     ∧ (SendSettings.OUTPUT_MODES !! name2 = Some c → name1 = name2)).
Proof.
  split; [|split]; intros H; (split; [table_cases H; lia|]);
    intros H2; table_cases H; table_cases H2; reflexivity.
Qed.

Lemma mode_codes_are_distinct_witness :
  0 <= 6 <= 9
  ∧ (SendSettings.LOGIC_MODES !! "xor"%string = Some 6 →
     "xor"%string = "xor"%string).
Proof.
  apply (mode_codes_are_distinct "xor" "xor" 6). reflexivity.
Defined.

Lemma amplify_x100_range (amplify : spec_float) (x : Z) :
  SendSettings.amplify_x100 amplify = Ok x → 10 <= x <= 1000.
Proof.
  unfold SendSettings.amplify_x100.
  destruct (py_round _); [rewrite bind_Ok|done]. intros [= <-]. lia.
Qed.

Lemma resolved_mode_range (table : gmap string Z) (hi : Z)
    (arg : option string) (v : SendSettings.yaml_value) (c : Z) :
  0 <= hi →
  (∀ name c, table !! name = Some c → 0 <= c <= hi) →
  match arg with
  | Some name => SendSettings.table_get table name
  | None => Ok (SendSettings.mode_code table v)
  end = Ok c →
  0 <= c <= hi.
Proof.
  intros Hhi Htable. destruct arg as [name|].
  - unfold SendSettings.table_get.
    destruct (table !! name) eqn:Hn; [|done]. intros [= <-]. eauto.
  - intros [= <-]. unfold SendSettings.mode_code.
    destruct v as [| |s]; try lia.
    destruct (table !! SendSettings.lower s) eqn:Hn; cbn; [eauto|lia].
Qed.

(** Every control frame that [main] sends is a validated one: it is
    [55 CF 01], the number of mice in 2..6 (the one of the command line
    when given), a logic mode in 0..9, an input mode in 0..2, an output
    mode in 0..1, the low byte of an [amplify_x100] in 10..1000, the two
    low bytes of a quad scale that is at least 1 (the one of the command
    line, raised to 1 when it is below), and 1 unless [--no-save]. *)
Theorem sent_frame_is_validated (argv : SendSettings.args)
    (cfg : gmap string SendSettings.yaml_value) (pkt : list Z) :
  SendSettings.main argv cfg = Ok pkt →
  ∃ n l i o x q,
    pkt = [0x55; 0xCF; 0x01; n; l; i; o; x mod 256;
           q mod 256; q / 256 mod 256;
           if SendSettings.no_save argv then 0 else 1]
    ∧ 2 <= n <= 6 ∧ 0 <= l <= 9 ∧ 0 <= i <= 2 ∧ 0 <= o <= 1
    ∧ 10 <= x <= 1000 ∧ 1 <= q
    ∧ (∀ n0, SendSettings.num_mice argv = Some n0 → n = n0)
    ∧ (∀ q0, SendSettings.quad_scale argv = Some q0 → q = Z.max 1 q0).
Proof.
  unfold SendSettings.main.
  destruct (SendSettings.parse_args argv) as [a|] eqn:Hp;
    [rewrite bind_Ok|done].
  apply parse_args_Ok in Hp as ->.
  destruct (match SendSettings.num_mice argv with
            | Some n => Ok n | None => _ end) as [n|] eqn:Hn;
    [rewrite bind_Ok|done].
  destruct (match SendSettings.logic_mode argv with
            | Some n => _ | None => _ end) as [l|] eqn:Hl;
    [rewrite bind_Ok|done].
  destruct (match SendSettings.input_mode argv with
            | Some n => _ | None => _ end) as [i|] eqn:Hi;
    [rewrite bind_Ok|done].
  destruct (match SendSettings.output_mode argv with
            | Some n => _ | None => _ end) as [o|] eqn:Ho;
    [rewrite bind_Ok|done].
  destruct (match SendSettings.amplify argv with
            | Some n => _ | None => _ end) as [amp|] eqn:Ha;
    [rewrite bind_Ok|done].
  destruct (match SendSettings.quad_scale argv with
            | Some n => Ok n | None => _ end) as [q|] eqn:Hq;
    [rewrite bind_Ok|done].
  destruct (Z.ltb_spec n 2); [done|].
  destruct (Z.gtb_spec n 6); [done|]. cbn [orb].
  rewrite build_packet_eq.
  destruct (SendSettings.amplify_x100 amp) as [x|] eqn:Hx;
    [rewrite bind_Ok|done].
  intros [= <-].
  apply (resolved_mode_range _ 9) in Hl; [|lia|apply logic_code_range].
  apply (resolved_mode_range _ 2) in Hi; [|lia|apply input_code_range].
  apply (resolved_mode_range _ 1) in Ho; [|lia|apply output_code_range].
  apply amplify_x100_range in Hx.
  exists n, l, i, o, x, (if q <? 1 then 1 else q).
  rewrite !(Z.mod_small n), !(Z.mod_small l), !(Z.mod_small i),
    !(Z.mod_small o) by lia.
  split; [now destruct (SendSettings.no_save argv)|].
  repeat (split; [lia|]).
  split; [destruct (Z.ltb_spec q 1); lia|]. split.
  - intros n0 Hn0. rewrite Hn0 in Hn. congruence.
  - intros q0 Hq0. rewrite Hq0 in Hq. injection Hq as <-.
    destruct (Z.ltb_spec q0 1); lia.
Qed.

Lemma sent_frame_is_validated_witness :
  ∃ n l i o x q,
    [85; 207; 1; 4; 5; 0; 0; 232; 1; 0; 0]
    = [0x55; 0xCF; 0x01; n; l; i; o; x mod 256;
       q mod 256; q / 256 mod 256;
       if SendSettings.no_save full_args then 0 else 1]
    ∧ 2 <= n <= 6 ∧ 0 <= l <= 9 ∧ 0 <= i <= 2 ∧ 0 <= o <= 1
    ∧ 10 <= x <= 1000 ∧ 1 <= q
    ∧ (∀ n0, SendSettings.num_mice full_args = Some n0 → n = n0)
    ∧ (∀ q0, SendSettings.quad_scale full_args = Some q0 → q = Z.max 1 q0).
Proof.
  apply (sent_frame_is_validated full_args ∅). vm_compute. reflexivity.
Defined.

(** When every option is given on the command line, the configuration
    file matters only through whether it can be loaded: for any two files
    that load, [main] does the same, and when loading raises, the outcome
    is that exception, unless the command line was refused before. *)
Theorem command_line_overrides_file (argv : SendSettings.args) :
  is_Some (SendSettings.num_mice argv) →
  is_Some (SendSettings.logic_mode argv) →
  is_Some (SendSettings.input_mode argv) →
  is_Some (SendSettings.output_mode argv) →
  is_Some (SendSettings.amplify argv) →
  is_Some (SendSettings.quad_scale argv) →
  (∀ cfg cfg', SendSettings.script argv (Ok cfg)
               = SendSettings.script argv (Ok cfg'))
  ∧ (∀ e, SendSettings.script argv (Raise e)
          = match SendSettings.parse_args argv with
            | Ok _ => Raise e
            | Raise e' => Raise e'
            end).
Proof.
  intros [n Hn] [l Hl] [i Hi] [o Ho] [a Ha] [q Hq].
  unfold SendSettings.script, SendSettings.main. split.
  - intros cfg cfg'.
    destruct (SendSettings.parse_args argv) as [a'|] eqn:Hp; [|reflexivity].
    apply parse_args_Ok in Hp as ->. rewrite !bind_Ok.
    now rewrite Hn, Hl, Hi, Ho, Ha, Hq.
  - intros e. now destruct (SendSettings.parse_args argv).
Qed.

Lemma command_line_overrides_file_witness :
  SendSettings.script full_args (Ok bogus_cfg)
  = SendSettings.script full_args (Ok ∅).
Proof.
  refine (proj1 (command_line_overrides_file full_args _ _ _ _ _ _)
            bogus_cfg ∅); unfold full_args; cbn [SendSettings.num_mice
    SendSettings.logic_mode SendSettings.input_mode SendSettings.output_mode
    SendSettings.amplify SendSettings.quad_scale]; eauto.
Defined.

(** ** What [build_packet] does with an unusual amplify *)

Lemma py_round_raises (x : spec_float) (e : exn) :
  py_round x = Raise e → e = ValueError ∨ e = OverflowError.
Proof. destruct x; cbn; intros [= <-]; auto. Qed.

(** [build_packet] masks every integer it is given, so it accepts any
    integers; it can fail only in the conversion of [amplify]: with
    [ValueError] when [amplify] is not a number, with [OverflowError] when
    it is infinite, and in no other way than these two errors. *)
Theorem build_packet_failures (n l i o : Z) (amplify : spec_float) (q : Z)
    (save : bool) :
  (amplify = S754_nan →
   SendSettings.build_packet n l i o amplify q save = Raise ValueError)
  ∧ (∀ s, amplify = S754_infinity s →
     SendSettings.build_packet n l i o amplify q save = Raise OverflowError)
  ∧ (∀ e, SendSettings.build_packet n l i o amplify q save = Raise e →
     e = ValueError ∨ e = OverflowError)
  ∧ (∀ pkt, SendSettings.build_packet n l i o amplify q save = Ok pkt →
     length pkt = 11%nat ∧ Forall (λ b, 0 <= b < 256) pkt).
Proof.
  rewrite build_packet_eq. split; [|split; [|split]].
  - now intros ->.
  - now intros s ->.
  - intros e.
    destruct (SendSettings.amplify_x100 amplify) eqn:Hx;
      [now rewrite bind_Ok|].
    rewrite bind_Raise. intros [= <-].
    unfold SendSettings.amplify_x100 in Hx.
    destruct (py_round _) eqn:Hr; [now rewrite bind_Ok in Hx|].
    rewrite bind_Raise in Hx. injection Hx as <-.
    eapply py_round_raises, Hr.
  - intros pkt.
    destruct (SendSettings.amplify_x100 amplify); [rewrite bind_Ok|done].
    intros [= <-]. split; [reflexivity|].
    repeat constructor; try lia; try (apply Z.mod_pos_bound; lia);
      destruct save; lia.
Qed.

Lemma build_packet_failures_witness :
  SendSettings.build_packet 6 0 0 0 S754_nan 2 true = Raise ValueError.
Proof. apply (build_packet_failures 6 0 0 0 S754_nan 2 true). reflexivity. Defined.

Lemma round_half_even_nonneg (m : positive) (e : Z) :
  0 <= round_half_even (Zpos m) e.
Proof.
  unfold round_half_even.
  destruct (Z.leb_spec 0 e).
  - apply Z.mul_nonneg_nonneg; [lia|]. now apply Z.pow_nonneg.
  - assert (0 < 2 ^ (- e)) by (apply Z.pow_pos_nonneg; lia).
    assert (0 <= Zpos m / 2 ^ (- e)) by (apply Z.div_pos; lia).
    repeat case_match; lia.
Qed.

(** An amplify factor that is zero or negative is sent as the minimum:
    [amplify_x100] is 10 whenever the conversion does not fail. *)
Theorem nonpositive_amplify_is_minimum (amplify : spec_float) :
  nonpositive amplify = true →
  SendSettings.amplify_x100 amplify = Ok 10
  ∨ ∃ e, SendSettings.amplify_x100 amplify = Raise e.
Proof.
  intros Hneg. unfold SendSettings.amplify_x100.
  assert (∃ M E, float_lit 100 = S754_finite false M E) as (M&E&->)
    by (eexists _, _; vm_compute; reflexivity).
  destruct amplify as [s|s| |s m e]; try discriminate.
  - left. reflexivity.
  - cbn in Hneg. subst s. unfold SFmul, binary_round_aux.
    destruct (shr_fexp _ _ _ _ _) as [mrs e'].
    destruct (shr_fexp _ _ _ _ _) as [mrs' e''].
    destruct (shr_m mrs') as [|m'|m'].
    + left. reflexivity.
    + destruct (e'' <=? emax - prec)%Z.
      * left. cbn [py_round cond_Zopp xorb]. rewrite bind_Ok.
        pose proof (round_half_even_nonneg m' e''). f_equal. lia.
      * right. eexists. reflexivity.
    + right. eexists. reflexivity.
Qed.

Lemma nonpositive_amplify_is_minimum_witness :
  SendSettings.amplify_x100 minus_half = Ok 10
  ∨ ∃ e, SendSettings.amplify_x100 minus_half = Raise e.
Proof. apply (nonpositive_amplify_is_minimum minus_half). reflexivity. Defined.

(** ** Events and rows *)

Lemma update_inv (state state' : list slot) (j : nat) (f : slot → slot) :
  update state j f = Ok state' →
  ∃ s, state !! j = Some s ∧ state' = <[j := f s]> state.
Proof.
  unfold update, getitem.
  destruct (state !! j) as [s|]; [rewrite bind_Ok|done].
  unfold setitem. destruct (j <? length state)%nat; [|done].
  intros [= <-]. eauto.
Qed.

(** An event read from the device at position [j] changes at most the row
    [j] of the state: the rows of the other mice and the number of rows
    stay as they are. *)
Theorem event_touches_one_row (j : nat) (e : input_event)
    (state state' : list slot) :
  handle_event j e state = Ok state' →
  length state' = length state
  ∧ ∀ i, i ≠ j → state' !! i = state !! i.
Proof.
  intros H. split; [eapply handle_event_length, H|]. intros i Hi.
  unfold handle_event in H.
  repeat case_match;
    first [ apply update_inv in H as (s&_&->);
            now rewrite list_lookup_insert_ne
          | now injection H as <- ].
Qed.

Lemma event_touches_one_row_witness :
  length (<[2%nat := Slot 7 (-9) 7 3]> initial_state) = length pressed
  ∧ ∀ i, i ≠ 2%nat →
      <[2%nat := Slot 7 (-9) 7 3]> initial_state !! i = pressed !! i.
Proof.
  apply (event_touches_one_row 2 (InputEvent EV_KEY BTN_RIGHT 1) pressed).
  reflexivity.
Defined.

(** In an iteration that starts with the accumulators at rest, the wheel
    byte is made of the wheel events alone: with [W] the sum over the six
    slots of each slot's wheel deltas, summed and clamped to
    [[-128, 127]], the frame is written with [W] wrapped to eight bits at
    offset 14 when that value is not negative, and the iteration raises
    [ValueError] when it is negative. *)
Theorem wheel_byte_of_tick (evs : list (nat * input_event))
    (state : list slot) :
  length state = 6%nat →
  Forall at_rest state →
  Forall (λ je, (fst je < 6)%nat) evs →
  let W := total ((λ i, clamp (total (deltas REL_WHEEL i evs)) (-128) 127)
                    <$> seq 0 6) in
  (wrap8 W < 0 → tick evs state = Raise ValueError)
  ∧ (0 <= wrap8 W →
     ∃ pkt state', tick evs state = Ok (pkt, state')
                   ∧ pkt !! 14%nat = Some (wrap8 W)).
Proof.
  intros Hlen Hrest Hidx W. rewrite <- Hlen in Hidx.
  destruct (apply_events_ok evs state Hidx) as (snap&Hev&Hsnap&Hsum).
  rewrite (tick_eq evs state snap Hlen Hev), wheel_field_mod.
  assert (wheel_total (clamped <$> snap) = W) as ->.
  { rewrite Hlen in Hsnap.
    destruct (six_slots state Hlen) as (s0&s1&s2&s3&s4&s5&->).
    destruct (six_slots snap Hsnap) as (t0&t1&t2&t3&t4&t5&->).
    repeat match goal with
      | H : Forall at_rest (_ :: _) |- _ =>
          apply Forall_cons in H as [(_&_&?) H]
      end.
    destruct (Hsum 0%nat s0 eq_refl) as (?&[= <-]&_&_&Hw0).
    destruct (Hsum 1%nat s1 eq_refl) as (?&[= <-]&_&_&Hw1).
    destruct (Hsum 2%nat s2 eq_refl) as (?&[= <-]&_&_&Hw2).
    destruct (Hsum 3%nat s3 eq_refl) as (?&[= <-]&_&_&Hw3).
    destruct (Hsum 4%nat s4 eq_refl) as (?&[= <-]&_&_&Hw4).
    destruct (Hsum 5%nat s5 eq_refl) as (?&[= <-]&_&_&Hw5).
    unfold wheel_total, W. cbn [fmap list_fmap seq clamped wheel].
    rewrite Hw0, Hw1, Hw2, Hw3, Hw4, Hw5.
    repeat match goal with H : wheel _ = 0 |- _ => rewrite H; clear H end.
    now rewrite !Z.add_0_l. }
  pose proof (wrap8_neg W) as Hneg. unfold wrap8, signed8 in *.
  destruct (Z.geb_spec (W mod 256) 128) as [Hge|Hlt].
  - split; [done|]. lia.
  - split; [lia|]. intros _. eexists _, _. split; [reflexivity|].
    assert (length (clamped <$> snap) = 6%nat) as Hc
      by (rewrite length_fmap; congruence).
    destruct (six_slots _ Hc) as (c0&c1&c2&c3&c4&c5&->). reflexivity.
Qed.

Lemma wheel_byte_of_tick_witness :
  ∃ pkt state',
    tick [(0%nat, InputEvent EV_REL REL_WHEEL 200);
          (3%nat, InputEvent EV_REL REL_WHEEL (-7))] initial_state
      = Ok (pkt, state')
    ∧ pkt !! 14%nat = Some 120.
Proof.
  apply (wheel_byte_of_tick
           [(0%nat, InputEvent EV_REL REL_WHEEL 200);
            (3%nat, InputEvent EV_REL REL_WHEEL (-7))] initial_state).
  - reflexivity.
  - repeat constructor.
  - repeat constructor.
  - vm_compute. discriminate.
Defined.
